(** * Wikipedia link graph: a shallow embedding of [wiki.py]

    The development models the class [WikipediaGraph] of [wiki.py]: ingestion
    of the tab-separated edge list, the JSON cache, the degree queries, the
    breadth-first shortest-path search and the link-based recommendations.

    Conventions.
    - A Python [str] is a [string]; each character stands for one code point
      (the model covers code points below 256).
    - A Python [int] is a [Z].
    - A Python [dict] keeps its keys in insertion order, and the code iterates
      over [items()]: it is an association list with pairwise distinct keys.
    - A Python [set] of titles is a [gset string].
    - Methods that assign to [self], print, touch files or raise are written
      in a state-and-exception monad [M]; methods that only read [self] are
      functions of the object. *)

From Stdlib Require Import Ascii.
From stdpp Require Import base numbers list strings gmap sorting.

Set Warnings "-register-all,-clear-no-such-hyp".
Local Open Scope Z_scope.

(** ** Python values and built-ins *)

Module Py.

(** The values [find_shortest_path] can return. *)
Inductive val :=
| None_
| Int (n : Z)
| Str (s : string)
| List (items : list val).

(** [bool(v)], as the [if path:] test applies it. *)
Definition truthy (v : val) : bool :=
  match v with
  | None_ => false
  | Int n => negb (n =? 0)
  | Str s => negb (String.eqb s EmptyString)
  | List items => match items with [] => false | _ => true end
  end.

(** [len(v)]; [None] and integers have no length. *)
Definition len (v : val) : option Z :=
  match v with
  | List items => Some (Z.of_nat (length items))
  | Str s => Some (Z.of_nat (String.length s))
  | _ => None
  end.

(** The items of [v] when [sep.join(v)] accepts them: every item a [str]. *)
Fixpoint strs (items : list val) : option (list string) :=
  match items with
  | [] => Some []
  | Str s :: rest =>
      match strs rest with
      | Some l => Some (s :: l)
      | None => None
      end
  | _ :: _ => None
  end.

Definition join_items (v : val) : option (list string) :=
  match v with
  | List items => strs items
  | _ => None
  end.

(** [str.isspace] on one character: the code points below 256 that
    [str.strip()] removes. *)
Definition is_space (c : ascii) : bool :=
  let n := N_of_ascii c in
  ((9 <=? n) && (n <=? 13) || (28 <=? n) && (n <=? 32)
   || (n =? 133) || (n =? 160))%N.

Fixpoint lstrip (s : string) : string :=
  match s with
  | EmptyString => EmptyString
  | String c rest => if is_space c then lstrip rest else s
  end.

Fixpoint rstrip (s : string) : string :=
  match s with
  | EmptyString => EmptyString
  | String c rest =>
      match rstrip rest with
      | EmptyString => if is_space c then EmptyString else String c EmptyString
      | r => String c r
      end
  end.

(** [s.strip()] *)
Definition strip (s : string) : string := rstrip (lstrip s).

(** [s.split(sep)] for a one-character separator: never an empty list. *)
Fixpoint split (sep : ascii) (s : string) : list string :=
  match s with
  | EmptyString => [EmptyString]
  | String c rest =>
      if decide (c = sep) then EmptyString :: split sep rest
      else match split sep rest with
           | [] => [String c EmptyString]
           | field :: fields => String c field :: fields
           end
  end.

(** [l[:stop]] *)
Definition slice_to {A} (stop : Z) (l : list A) : list A :=
  if 0 <=? stop then take (Z.to_nat stop) l
  else take (Z.to_nat (Z.of_nat (length l) + stop)) l.

(** [l.sort(key=key, reverse=True)]. Python's sort is stable, also with
    [reverse=True]: items with equal keys keep their order. The result of a
    stable sort is determined by the keys, so an insertion sort computes
    it. *)
Fixpoint insert_reverse {A} (key : A → Z) (x : A) (l : list A) : list A :=
  match l with
  | [] => [x]
  | y :: l' =>
      if key y <=? key x then x :: y :: l'
      else y :: insert_reverse key x l'
  end.

Definition sort_reverse {A} (key : A → Z) (l : list A) : list A :=
  foldr (insert_reverse key) [] l.

End Py.

(** ** Insertion-ordered dictionaries with string keys *)

Abbreviation dict V := (list (string * V)).

Module Dict.
Section ops.
Context {V : Type}.

(** [d.get(k)] *)
Fixpoint get (k : string) (d : dict V) : option V :=
  match d with
  | [] => None
  | (k', v) :: d' => if decide (k = k') then Some v else get k d'
  end.

(** [d.get(k, dflt)] *)
Definition get_default (k : string) (dflt : V) (d : dict V) : V :=
  default dflt (get k d).

(** [k in d] *)
Definition contains (k : string) (d : dict V) : bool :=
  match get k d with Some _ => true | None => false end.

(** [d[k] = v]: an existing key keeps its position, a new one goes last. *)
Fixpoint setitem (k : string) (v : V) (d : dict V) : dict V :=
  match d with
  | [] => [(k, v)]
  | (k', v') :: d' =>
      if decide (k = k') then (k, v) :: d' else (k', v') :: setitem k v d'
  end.

Definition keys (d : dict V) : list string := d.*1.

(** The dictionary built from a sequence of pairs, later pairs
    overwriting earlier ones (what [json.load] does with the members of
    an object). *)
Definition of_items (kvs : list (string * V)) : dict V :=
  foldl (λ d kv, setitem kv.1 kv.2 d) [] kvs.

(** Representation invariant: the keys of a dictionary are distinct. *)
Definition wf (d : dict V) : Prop := NoDup (keys d).
End ops.
End Dict.

(** ** The object, the world around it, and the monad of its methods *)

Record WikipediaGraph := {
  cache_file : string;
  adj_list : dict (list string);
  start_page : option string;
  end_page : option string;
}.

(** One constructor per [print] call of the class. *)
Inductive printed :=
| NoCacheFound
| GraphCached (file_name : string)
| GraphLoaded (file_name : string)
| ShortestPathSteps (steps : Z)
| PathLine (titles : list string)
| NoPathFound
| DegreePage (page_title : string)
| OutDegree (out_degree : Z)
| InDegree (in_degree : Z)
| PageNotInNetwork (page_title : string)
| NoRecommendations (page_title : string)
| TopRecommendations (top_n : Z) (page_title : string)
| Recommendation (page : string) (shared : Z).

(** A JSON document of the cache: an object whose members, in document
    order, map a title to an array of titles. *)
Abbreviation json := (list (string * list string)).

Record world := {
  self : WikipediaGraph;
  files : gmap string json;
  stdout : list printed;
}.

(** [OutOfFuel] is not a Python exception: it marks a loop of the model that
    was cut off before the Python loop ends. *)
Inductive exn := StopIteration | TypeError | OutOfFuel.

Inductive outcome (A : Type) :=
| Ok (a : A)
| Raise (e : exn).
Arguments Ok {A} a.
Arguments Raise {A} e.

Definition M (A : Type) : Type := world → outcome A * world.

#[global] Instance M_ret : MRet M := λ A a w, (Ok a, w).
#[global] Instance M_bind : MBind M := λ A B k m w,
  match m w with
  | (Ok a, w') => k a w'
  | (Raise e, w') => (Raise e, w')
  end.

Definition raise {A} (e : exn) : M A := λ w, (Raise e, w).

Definition get_self : M WikipediaGraph := λ w, (Ok (self w), w).

Definition put_self (g : WikipediaGraph) : M unit := λ w,
  (Ok (), {| self := g; files := files w; stdout := stdout w |}).

Definition set_adj_list (adj : dict (list string)) : M unit :=
  g ← get_self;
  put_self {| cache_file := cache_file g; adj_list := adj;
              start_page := start_page g; end_page := end_page g |}.

Definition set_start_page (p : option string) : M unit :=
  g ← get_self;
  put_self {| cache_file := cache_file g; adj_list := adj_list g;
              start_page := p; end_page := end_page g |}.

Definition set_end_page (p : option string) : M unit :=
  g ← get_self;
  put_self {| cache_file := cache_file g; adj_list := adj_list g;
              start_page := start_page g; end_page := p |}.

Definition print (line : printed) : M unit := λ w,
  (Ok (), {| self := self w; files := files w; stdout := stdout w ++ [line] |}).

(** [os.path.exists(file_name)] followed by [json.load]: the document, if the
    file is there. *)
Definition read_json (file_name : string) : M (option json) := λ w,
  (Ok (files w !! file_name), w).

(** [json.dump(obj, f)] on a file opened for writing. *)
Definition write_json (file_name : string) (doc : json) : M unit := λ w,
  (Ok (), {| self := self w; files := <[file_name := doc]> (files w);
             stdout := stdout w |}).

(** ** Ingestion: [build_graph_from_file], [cache_data], [load_cache] *)

Definition tab : ascii := ascii_of_nat 9.

(** [line.strip().split('\t')] *)
Definition fields (line : string) : list string :=
  Py.split tab (Py.strip line).

(** The body of [for line in file]. *)
Definition process_line (line : string) (adj : dict (list string))
  : dict (list string) :=
  let parts := fields line in
  match parts with
  | [_; from_title; _; to_title] =>
      let adj :=
        if Dict.contains from_title adj then adj
        else Dict.setitem from_title [] adj in
      let adj :=
        if Dict.contains to_title adj then adj
        else Dict.setitem to_title [] adj in
      (* [self.adj_list[from_title].append(to_title)]; the key is there,
         it was given an entry above *)
      Dict.setitem from_title
        (Dict.get_default from_title [] adj ++ [to_title]) adj
  | _ => adj
  end.

Definition cache_data (file_name : string) : M unit :=
  g ← get_self;
  write_json file_name (adj_list g);;
  print (GraphCached file_name).

Definition load_cache (file_name : string) : M bool :=
  doc ← read_json file_name;
  match doc with
  | Some members =>
      set_adj_list (Dict.of_items members);;
      print (GraphLoaded file_name);;
      mret true
  | None => mret false
  end.

(** [file] is the content of the file at [filepath], as the lines its
    iterator yields; [next(file)] raises [StopIteration] when there is no
    line at all. *)
Definition build_graph_from_file (file : list string) : M unit :=
  match file with
  | [] => raise StopIteration
  | _header :: lines =>
      g ← get_self;
      set_adj_list (foldl (λ adj line, process_line line adj) (adj_list g) lines);;
      g ← get_self;
      cache_data (cache_file g)
  end.

(** [WikipediaGraph.__init__] *)
Definition init (file_name : string) : M unit :=
  put_self {| cache_file := file_name; adj_list := [];
              start_page := None; end_page := None |};;
  g ← get_self;
  load_cache (cache_file g) ≫= λ loaded : bool,
  if loaded then mret () else print NoCacheFound.

(** ** Structural queries *)

Definition get_connections (g : WikipediaGraph) (page_title : string)
  : list string :=
  Dict.get_default page_title [] (adj_list g).

Definition get_out_degree (g : WikipediaGraph) (page_title : string) : Z :=
  Z.of_nat (length (get_connections g page_title)).

Fixpoint in_degree_loop (page_title : string) (items : dict (list string))
  (in_degree : Z) : Z :=
  match items with
  | [] => in_degree
  | (page_node, neighbors) :: rest =>
      in_degree_loop page_title rest
        (if decide (page_title ∈ neighbors) then in_degree + 1 else in_degree)
  end.

Definition get_in_degree (g : WikipediaGraph) (page_title : string) : Z :=
  in_degree_loop page_title (adj_list g) 0.

Definition print_degrees (page_title : string) : M unit :=
  g ← get_self;
  let out_degree := get_out_degree g page_title in
  let in_degree := get_in_degree g page_title in
  print (DegreePage page_title);;
  print (OutDegree out_degree);;
  print (InDegree in_degree).

(** ** Shortest path *)

(** The [for neighbor in ...] loop of the search: [path] is the path of the
    page being expanded. *)
Fixpoint enqueue_neighbors (path : list string) (neighbors : list string)
  (queue : list (string * list string)) (visited : gset string)
  : list (string * list string) * gset string :=
  match neighbors with
  | [] => (queue, visited)
  | neighbor :: rest =>
      if decide (neighbor ∈ visited)
      then enqueue_neighbors path rest queue visited
      else enqueue_neighbors path rest
             (queue ++ [(neighbor, path ++ [neighbor])])
             ({[neighbor]} ∪ visited)
  end.

(** The [while queue:] loop; [None] when [fuel] iterations were not enough. *)
Fixpoint bfs_loop (fuel : nat) (g : WikipediaGraph) (end_page : string)
  (queue : list (string * list string)) (visited : gset string)
  : option (option (list string)) :=
  match fuel with
  | O => None
  | S fuel =>
      match queue with
      | [] => Some None
      | (current_page, path) :: queue =>
          if decide (current_page = end_page) then Some (Some path)
          else
            let visited := {[current_page]} ∪ visited in
            let '(queue, visited) :=
              enqueue_neighbors path (get_connections g current_page)
                queue visited in
            bfs_loop fuel g end_page queue visited
      end
  end.

(** Iterations granted to the search: two more than there are out-links in
    the graph. *)
Definition bfs_fuel (g : WikipediaGraph) : nat :=
  S (S (length (concat (adj_list g).*2))).

Definition find_shortest_path (start_page end_page : string) : M Py.val :=
  set_start_page (Some start_page);;
  set_end_page (Some end_page);;
  g ← get_self;
  if negb (Dict.contains start_page (adj_list g))
     || negb (Dict.contains end_page (adj_list g))
  then mret Py.None_
  else if decide (start_page = end_page)
  then mret (Py.List [Py.Int 0; Py.List [Py.Str start_page]])
  else
    match bfs_loop (bfs_fuel g) g end_page [(start_page, [start_page])] ∅ with
    | Some (Some path) => mret (Py.List (Py.Str <$> path))
    | Some None => mret Py.None_
    | None => raise OutOfFuel
    end.

Definition print_shortest_path (start_page end_page : string) : M unit :=
  path ← find_shortest_path start_page end_page;
  if Py.truthy path then
    match Py.len path with
    | Some n =>
        print (ShortestPathSteps (n - 1));;
        match Py.join_items path with
        | Some titles => print (PathLine titles)
        | None => raise TypeError
        end
    | None => raise TypeError
    end
  else print NoPathFound.

(** ** Recommendations *)

(** The scan [for other_page, other_links in self.adj_list.items()]. *)
Fixpoint similarities_loop (page_title : string) (page_links : gset string)
  (items : dict (list string)) (similarities : list (string * Z))
  : list (string * Z) :=
  match items with
  | [] => similarities
  | (other_page, other_links) :: rest =>
      if decide (other_page = page_title)
      then similarities_loop page_title page_links rest similarities
      else
        let other_links_set : gset string := list_to_set other_links in
        let shared_links := page_links ∩ other_links_set in
        let similarity_score := Z.of_nat (size shared_links) in
        if 0 <? similarity_score
        then similarities_loop page_title page_links rest
               (similarities ++ [(other_page, similarity_score)])
        else similarities_loop page_title page_links rest similarities
  end.

Fixpoint print_recommendations (recommendations : list (string * Z)) : M unit :=
  match recommendations with
  | [] => mret ()
  | rec_page :: rest =>
      print (Recommendation rec_page.1 rec_page.2);;
      print_recommendations rest
  end.

(** Every branch of the Python method ends without a value: the method
    returns [None] and reports through [print]. *)
Definition recommend_articles (page_title : string) (top_n : Z) : M Py.val :=
  g ← get_self;
  match Dict.get page_title (adj_list g) with
  | None =>
      print (PageNotInNetwork page_title);;
      mret Py.None_
  | Some links =>
      let page_links : gset string := list_to_set links in
      let similarities := similarities_loop page_title page_links (adj_list g) [] in
      match similarities with
      | [] =>
          print (NoRecommendations page_title);;
          mret Py.None_
      | _ =>
          let similarities := Py.sort_reverse snd similarities in
          let recommendations := Py.slice_to top_n similarities in
          print (TopRecommendations top_n page_title);;
          print_recommendations recommendations;;
          mret Py.None_
      end
  end.

(** ** Notions used in the statements *)

(** The title pair of a line with exactly four fields. *)
Definition record_of (line : string) : option (string * string) :=
  match fields line with
  | [_; from_title; _; to_title] => Some (from_title, to_title)
  | _ => None
  end.

(** The destinations of the records of [lines] that start at [title], in
    file order, one per record. *)
Definition targets (title : string) (lines : list string) : list string :=
  omap (λ line,
          match record_of line with
          | Some (from_title, to_title) =>
              if decide (from_title = title) then Some to_title else None
          | None => None
          end) lines.

(** The adjacency mapping after [build_graph_from_file file] in world [w]. *)
Definition loaded (file : list string) (w : world) : dict (list string) :=
  adj_list (self (build_graph_from_file file w).2).

(** The invariant of the data model: every destination of an out-link has
    an entry of its own. *)
Definition closed (adj : dict (list string)) : bool :=
  forallb (λ item : string * list string,
             forallb (λ title, Dict.contains title adj) item.2) adj.

(** [b] is an out-link of [a]. *)
Definition edge (adj : dict (list string)) (a b : string) : Prop :=
  b ∈ Dict.get_default a [] adj.

(** A directed path: a non-empty sequence of titles, each consecutive pair
    joined by an edge. *)
Fixpoint is_path (adj : dict (list string)) (p : list string) : Prop :=
  match p with
  | [] => False
  | a :: p' =>
      match p' with
      | [] => True
      | b :: _ => edge adj a b ∧ is_path adj p'
      end
  end.

#[global] Instance edge_dec adj a b : Decision (edge adj a b).
Proof. unfold edge. apply _. Defined.

#[global] Instance is_path_dec adj p : Decision (is_path adj p).
Proof.
  induction p as [|a p IH]; [apply _ |].
  destruct p as [|b p]; [apply _ |].
  simpl in *. apply _.
Defined.

(** [p] leads from [s] to [e]. *)
Definition path_from_to (adj : dict (list string)) (s e : string)
  (p : list string) : Prop :=
  is_path adj p ∧ head p = Some s ∧ last p = Some e.

(** The step count of a path. *)
Definition steps (p : list string) : Z := Z.of_nat (length p) - 1.

(** The neighbours the [for] loop enqueues: those not visited yet, each
    once. *)
Fixpoint fresh (neighbors : list string) (visited : gset string) : list string :=
  match neighbors with
  | [] => []
  | neighbor :: rest =>
      if decide (neighbor ∈ visited) then fresh rest visited
      else neighbor :: fresh rest ({[neighbor]} ∪ visited)
  end.

(** The titles the [while] loop enqueues, in order, from a given state on
    (what the queue holds at the start is not counted). *)
Fixpoint bfs_enqueued (fuel : nat) (g : WikipediaGraph) (end_page : string)
  (queue : list (string * list string)) (visited : gset string) : list string :=
  match fuel with
  | O => []
  | S fuel =>
      match queue with
      | [] => []
      | (current_page, path) :: queue =>
          if decide (current_page = end_page) then []
          else
            let visited := {[current_page]} ∪ visited in
            let '(queue', visited') :=
              enqueue_neighbors path (get_connections g current_page)
                queue visited in
            drop (length queue) queue'.*1
            ++ bfs_enqueued fuel g end_page queue' visited'
      end
  end.

(** The invariant of the [while] loop, at its head. [processed] lists the
    entries dequeued so far, in order; none of them is [e]. *)
Record bfs_inv (adj : dict (list string)) (s e : string)
    (processed queue : list (string * list string))
    (visited : gset string) : Prop := {
  inv_paths : ∀ v p, (v, p) ∈ processed ++ queue → path_from_to adj s v p;
  inv_start : (s, [s]) ∈ processed ++ queue;
  inv_sorted :
    StronglySorted (λ a b : string * list string, (length a.2 ≤ length b.2)%nat)
      queue;
  inv_bound : ∀ v p v' p',
    head queue = Some (v, p) → (v', p') ∈ processed ++ queue →
    (length p' ≤ S (length p))%nat;
  inv_nodup : NoDup (processed ++ queue).*1;
  inv_visited : ∀ v, v ∈ visited ↔ v ∈ (processed ++ queue).*1;
  inv_expanded : ∀ u pu t,
    (u, pu) ∈ processed → edge adj u t →
    ∃ pt, (t, pt) ∈ processed ++ queue ∧ (length pt ≤ S (length pu))%nat;
  inv_not_end : ∀ u pu, (u, pu) ∈ processed → u ≠ e;
}.

(** The titles that occur in some out-link sequence: only these can ever be
    enqueued. *)
Definition mentioned (g : WikipediaGraph) : gset string :=
  list_to_set (concat (adj_list g).*2).

(** [sharedCount]: the size of the intersection of the out-link sets of two
    titles. *)
Definition shared_count (adj : dict (list string)) (a b : string) : Z :=
  Z.of_nat (size ((list_to_set (Dict.get_default a [] adj) : gset string)
                  ∩ list_to_set (Dict.get_default b [] adj))).

(** What one item of the mapping contributes to [similarities]. *)
Definition candidate (page_title : string) (page_links : gset string)
  (item : string * list string) : option (string * Z) :=
  if decide (item.1 = page_title) then None
  else
    let score := Z.of_nat (size (page_links ∩ list_to_set item.2)) in
    if 0 <? score then Some (item.1, score) else None.

(** The recommendations among printed lines, in order. *)
Definition reported (out : list printed) : list (string * Z) :=
  omap (λ line,
          match line with
          | Recommendation page shared => Some (page, shared)
          | _ => None
          end) out.

(** The recommendations that [recommend_articles title top_n] reports when
    run in world [w]. *)
Definition recommended (title : string) (top_n : Z) (w : world)
  : list (string * Z) :=
  reported (drop (length (stdout w))
              (stdout (recommend_articles title top_n w).2)).

(** The contract of the recommendation query: [ranked] holds every other
    title whose shared count with [title] is positive, each once with that
    count, highest count first; the reported recommendations are the first
    ones of [ranked], at most [top_n] of them: all of them when no more than
    [top_n] qualify, and [top_n] of them otherwise. *)
Definition recommend_spec (title : string) (top_n : Z) (w : world) : Prop :=
  let adj := adj_list (self w) in
  let recs := recommended title top_n w in
  ∃ ranked : list (string * Z),
    (∀ page shared,
       (page, shared) ∈ ranked
       ↔ page ∈ Dict.keys adj ∧ page ≠ title
         ∧ shared = shared_count adj title page ∧ 0 < shared)
    ∧ NoDup ranked.*1
    ∧ StronglySorted (λ a b : string * Z, b.2 ≤ a.2) ranked
    ∧ recs `prefix_of` ranked
    ∧ Z.of_nat (length recs) ≤ top_n
    ∧ (Z.of_nat (length ranked) ≤ top_n → recs = ranked)
    ∧ (top_n ≤ Z.of_nat (length ranked) → Z.of_nat (length recs) = top_n).

(** ** Start-up *)

(** [main], up to the creation of the explorer: the object is created with
    the cache file [wikigraph_cache.json], and the edge list is read only
    when the object holds no page then ([not graph.adj_list]). [csv] is the
    content of the edge-list file. *)
Definition main_setup (csv : list string) : M unit :=
  init "wikigraph_cache.json";;
  g ← get_self;
  match adj_list g with
  | [] => build_graph_from_file csv
  | _ :: _ => mret ()
  end.

(** ** Categories *)

(** What [response.json()] holds, as far as [get_page_categories] looks at
    it: whether there is a ["query"] member, whether that has a ["pages"]
    member, and for each page (by id, in the order of the object) the titles
    of its ["categories"] member, if it has one. *)
Inductive api_data :=
| NoQuery
| NoPages
| Pages (pages : list (string * option (list string))).

(** What [get_page_categories] returns: the list [[]] or a set. *)
Inductive category_value :=
| EmptyList
| CategorySet (categories : gset string).

(** The loop [for page_id, page_info in pages.items()]. *)
Fixpoint pages_loop (pages : list (string * option (list string)))
  (categories : gset string) : gset string :=
  match pages with
  | [] => categories
  | (page_id, page_info) :: rest =>
      pages_loop rest
        (match page_info with
         | Some titles => list_to_set titles
         | None => categories
         end)
  end.

(** [api page_title] stands for the answer of the remote lookup,
    [requests.get(url, params=params).json()]. *)
Definition get_page_categories (api : string → api_data) (page_title : string)
  : category_value :=
  match api page_title with
  | NoQuery | NoPages => EmptyList
  | Pages pages => CategorySet (pages_loop pages ∅)
  end.

(** What [find_common_categories] does: it prints the number of common
    categories and then each of them (in the iteration order of the set), or
    prints that there is none, or raises [AttributeError] because a list has
    no [intersection]. *)
Inductive category_outcome :=
| CommonCategories (count : Z) (title1 title2 : string) (common : gset string)
| NoCommonCategories (title1 title2 : string)
| AttributeError.

Definition find_common_categories (api : string → api_data)
  (title1 title2 : string) : category_outcome :=
  let categories1 := get_page_categories api title1 in
  let categories2 := get_page_categories api title2 in
  match categories1 with
  | EmptyList => AttributeError
  | CategorySet set1 =>
      (* [intersection] takes any iterable: the set or the empty list *)
      let common :=
        match categories2 with
        | EmptyList => set1 ∩ ∅
        | CategorySet set2 => set1 ∩ set2
        end in
      if decide (common = ∅) then NoCommonCategories title1 title2
      else CommonCategories (Z.of_nat (size common)) title1 title2 common
  end.

(** ** More notions used in the statements *)

(** The sources of the records of [lines] that lead to [title], in file
    order, one per record. *)
Definition sources (title : string) (lines : list string) : list string :=
  omap (λ line,
          match record_of line with
          | Some (from_title, to_title) =>
              if decide (to_title = title) then Some from_title else None
          | None => None
          end) lines.


(** The categories of the last page of [pages] that has a ["categories"]
    member. *)
Definition last_categories (pages : list (string * option (list string)))
  : option (list string) :=
  last (omap snd pages).

(** ** Lines as they stand *)

(** The tab-separated fields of a line as it stands, before [strip]. *)
Definition raw_fields (line : string) : list string := Py.split tab line.

(** The number of tabs of a string. *)
Fixpoint tabs (s : string) : nat :=
  match s with
  | EmptyString => 0%nat
  | String c rest => if decide (c = tab) then S (tabs rest) else tabs rest
  end.

(** Only white space, or nothing at all: what [strip] turns into the empty
    string. *)
Fixpoint blank (s : string) : bool :=
  match s with
  | EmptyString => true
  | String c rest => Py.is_space c && blank rest
  end.

(** [l.count(x)] *)
Definition occurrences (x : string) (l : list string) : nat :=
  length (filter (λ y, y = x) l).

(** The number of lines that hold the record [from_title -> to_title]. *)
Definition records (from_title to_title : string) (lines : list string) : nat :=
  length (filter (λ line, record_of line = Some (from_title, to_title)) lines).

(** ** Fixtures *)

Definition edge_line (from_id from_title to_id to_title : string) : string :=
  from_id +:+ String tab (from_title +:+ String tab (to_id +:+ String tab
    (to_title +:+ String (ascii_of_nat 10) EmptyString))).

(** A new object, no cache on disk, nothing printed. *)
Definition new_world : world :=
  {| self := {| cache_file := "wikigraph_cache.json"; adj_list := [];
                start_page := None; end_page := None |};
     files := ∅; stdout := [] |}.

(** The edge list of the fixture graph: A -> X, Y, Z; B -> X, Y; C -> X;
    D -> W. *)
Definition fixture_file : list string :=
  [ edge_line "page_id_from" "page_title_from" "page_id_to" "page_title_to";
    edge_line "1" "A" "5" "X"; edge_line "1" "A" "6" "Y";
    edge_line "1" "A" "7" "Z"; edge_line "2" "B" "5" "X";
    edge_line "2" "B" "6" "Y"; edge_line "3" "C" "5" "X";
    edge_line "4" "D" "8" "W" ].

(** The world after loading the fixture, with a clean output. *)
Definition fixture : world :=
  let w := (build_graph_from_file fixture_file new_world).2 in
  {| self := self w; files := files w; stdout := [] |}.

(** A graph with a detour: A -> B -> C -> D and the shortcut A -> C; E
    links to A and nothing links to E. *)
Definition detour_file : list string :=
  [ edge_line "page_id_from" "page_title_from" "page_id_to" "page_title_to";
    edge_line "1" "A" "2" "B"; edge_line "2" "B" "3" "C";
    edge_line "3" "C" "4" "D"; edge_line "1" "A" "3" "C";
    edge_line "5" "E" "1" "A" ].

Definition detour : world :=
  let w := (build_graph_from_file detour_file new_world).2 in
  {| self := self w; files := files w; stdout := [] |}.

(** A world whose cache file holds two pages. *)
Definition cached_world : world :=
  {| self := self new_world;
     files := {[ "wikigraph_cache.json" := [("A", ["B"]); ("B", [])] ]};
     stdout := [] |}.

(** An edge list that adds the edge A -> D. *)
Definition shortcut_file : list string :=
  [ edge_line "page_id_from" "page_title_from" "page_id_to" "page_title_to";
    edge_line "1" "A" "4" "D" ].

(** Answers of the remote lookup for two titles; every other title gets an
    answer without a ["query"] member. *)
Definition sample_api (title : string) : api_data :=
  if decide (title = "Rocq")
  then Pages [("1", Some ["Category:Proof assistants"; "Category:Free software"])]
  else if decide (title = "Lean")
  then Pages [("2", Some ["Category:Proof assistants"])]
  else NoQuery.

(** The header line of an edge list. *)
Definition header_line : string :=
  edge_line "page_id_from" "page_title_from" "page_id_to" "page_title_to".

(** A line that starts with a tab: five tab-separated fields as it stands,
    four once stripped. *)
Definition leading_tab_line : string :=
  String tab ("1" +:+ String tab ("A" +:+ String tab ("2" +:+ String tab "B"))).

(** A line with an empty destination title: four tab-separated fields as it
    stands, three once stripped. *)
Definition trailing_tab_line : string :=
  "1" +:+ String tab ("A" +:+ String tab ("2" +:+ String tab EmptyString)).

(** A line with an empty source id: four tab-separated fields as it stands,
    three once stripped. *)
Definition blank_id_line : string :=
  String tab ("A" +:+ String tab ("2" +:+ String tab "B")).

(** An edge list that holds the edge D -> W twice. *)
Definition duplicate_file : list string :=
  [ header_line; edge_line "4" "D" "8" "W"; edge_line "4" "D" "8" "W" ].

(** A world whose cache file lists B and D as destinations without giving
    them an entry. *)
Definition unchecked_cache_world : world :=
  {| self := self new_world;
     files := {[ "wikigraph_cache.json" :=
                   [("A", ["B"; "C"; "A"]); ("C", ["A"; "D"; "B"]); ("E", [])] ]};
     stdout := [] |}.

(** * Facts *)

(** ** Dictionaries *)

Section dict_facts.
Context {V : Type}.
Implicit Types (d : dict V) (k : string) (v : V).

Lemma dict_contains_keys k d : Dict.contains k d = true ↔ k ∈ Dict.keys d.
Proof.
  unfold Dict.contains, Dict.keys. induction d as [|[k' v'] d IH]; csimpl.
  - split; [done | by intros ?%elem_of_nil].
  - rewrite elem_of_cons. case_decide as Hk; [subst; split; [by left | done] |].
    rewrite IH. split; [by right | by intros [?|?]].
Qed.

Lemma dict_get_None k d : Dict.get k d = None ↔ k ∉ Dict.keys d.
Proof.
  rewrite <- dict_contains_keys. unfold Dict.contains.
  destruct (Dict.get k d); split; (done || congruence).
Qed.

Lemma dict_get_setitem k' k v d :
  Dict.get k' (Dict.setitem k v d) = if decide (k' = k) then Some v else Dict.get k' d.
Proof.
  induction d as [|[k0 v0] d IH]; simpl.
  - by repeat case_decide.
  - destruct (decide (k = k0)) as [->|Hne]; simpl.
    + by repeat case_decide.
    + rewrite IH. repeat case_decide; congruence.
Qed.

Lemma dict_setitem_fresh k v d :
  Dict.get k d = None → Dict.setitem k v d = d ++ [(k, v)].
Proof.
  induction d as [|[k0 v0] d IH]; simpl; [done |].
  case_decide; [done |]. intros ?. by rewrite IH.
Qed.

Lemma dict_keys_setitem k v d :
  Dict.keys (Dict.setitem k v d)
  = if Dict.contains k d then Dict.keys d else Dict.keys d ++ [k].
Proof.
  unfold Dict.contains, Dict.keys. induction d as [|[k0 v0] d IH]; csimpl; [done |].
  destruct (decide (k = k0)) as [->|Hne]; csimpl; [done |].
  rewrite IH. by destruct (Dict.get k d).
Qed.

Lemma dict_wf_setitem k v d : Dict.wf d → Dict.wf (Dict.setitem k v d).
Proof.
  unfold Dict.wf. rewrite dict_keys_setitem.
  destruct (Dict.contains k d) eqn:Hc; [done |].
  intros Hd. apply NoDup_app. split_and!; [done | | apply NoDup_singleton].
  intros x Hx ->%list_elem_of_singleton.
  apply dict_contains_keys in Hx. congruence.
Qed.

Lemma dict_get_elem_of k v d : Dict.wf d → (k, v) ∈ d ↔ Dict.get k d = Some v.
Proof.
  unfold Dict.wf, Dict.keys. induction d as [|[k0 v0] d IH]; csimpl.
  - intros _. split; [by intros ?%elem_of_nil | done].
  - intros [Hk0 Hd]%NoDup_cons. rewrite elem_of_cons, IH by done.
    case_decide as Hk.
    + subst. split; [intros [?|Hg]; [congruence |] | intros [= ->]; by left].
      exfalso. apply Hk0. apply dict_contains_keys. unfold Dict.contains.
      by rewrite Hg.
    + split; [intros [?|?]; [congruence | done] | by right].
Qed.

(** Inserting the items of a dictionary one by one rebuilds it. *)
Lemma dict_of_items_app (acc kvs : dict V) :
  NoDup (Dict.keys (acc ++ kvs)) →
  foldl (λ d kv, Dict.setitem kv.1 kv.2 d) acc kvs = acc ++ kvs.
Proof.
  revert acc. induction kvs as [|[k v] kvs IH]; intros acc Hnd; simpl.
  - by rewrite app_nil_r.
  - rewrite dict_setitem_fresh.
    + rewrite IH; rewrite <- app_assoc; done.
    + apply dict_get_None. unfold Dict.keys in *.
      rewrite fmap_app, fmap_cons in Hnd.
      apply NoDup_app in Hnd as (_ & Hdisj & _).
      intros Hin. apply (Hdisj k Hin). simpl. by left.
Qed.

Lemma dict_of_items_wf d : Dict.wf d → Dict.of_items d = d.
Proof. intros Hd. unfold Dict.of_items. by rewrite dict_of_items_app. Qed.
End dict_facts.

(** ** Ingestion *)

Section ingestion.
Implicit Types (adj : dict (list string)) (line title x : string).

Lemma dict_contains_setitem {V} x k (v : V) (d : dict V) :
  Dict.contains x (Dict.setitem k v d) = bool_decide (x = k) || Dict.contains x d.
Proof.
  unfold Dict.contains. rewrite dict_get_setitem.
  case_decide; [by rewrite bool_decide_eq_true_2 | by rewrite bool_decide_eq_false_2].
Qed.

(** Giving a new title an empty entry changes no out-link sequence. *)
Lemma ensure_links k adj x :
  Dict.get_default x []
    (if Dict.contains k adj then adj else Dict.setitem k [] adj)
  = Dict.get_default x [] adj.
Proof.
  unfold Dict.contains, Dict.get_default.
  destruct (Dict.get k adj) eqn:Hk; [done |].
  rewrite dict_get_setitem. case_decide; [subst; by rewrite Hk | done].
Qed.

Lemma ensure_contains k adj x :
  Dict.contains x (if Dict.contains k adj then adj else Dict.setitem k [] adj)
  = Dict.contains x adj || bool_decide (x = k).
Proof.
  destruct (Dict.contains k adj) eqn:Hk.
  - case_bool_decide; [subst; by rewrite Hk | by rewrite orb_false_r].
  - rewrite dict_contains_setitem. apply orb_comm.
Qed.

Lemma ensure_wf k adj :
  Dict.wf adj →
  Dict.wf (if Dict.contains k adj then adj else Dict.setitem k [] adj).
Proof. destruct (Dict.contains k adj); [done | apply dict_wf_setitem]. Qed.

Lemma record_of_None line :
  record_of line = None ↔ length (fields line) ≠ 4%nat.
Proof.
  unfold record_of.
  destruct (fields line) as [|a [|b [|c [|d [|e l]]]]]; simpl;
    split; intros; (done || lia).
Qed.

Lemma record_of_Some line f t :
  record_of line = Some (f, t) ↔ ∃ a c, fields line = [a; f; c; t].
Proof.
  unfold record_of.
  destruct (fields line) as [|a [|b [|c [|d [|e l]]]]]; simpl;
    (split; [intros ?; simplify_eq; eauto | intros (? & ? & ?); by simplify_eq]).
Qed.

Lemma process_line_skip line adj :
  record_of line = None → process_line line adj = adj.
Proof.
  unfold record_of, process_line.
  by destruct (fields line) as [|a [|b [|c [|d [|e l]]]]].
Qed.

Lemma process_line_links line adj x :
  Dict.get_default x [] (process_line line adj)
  = Dict.get_default x [] adj ++ targets x [line].
Proof.
  unfold targets, record_of, process_line. simpl.
  destruct (fields line) as [|a [|f [|c [|t [|e l]]]]];
    simpl; try by rewrite app_nil_r.
  set (adj1 := if Dict.contains f adj then adj else Dict.setitem f [] adj).
  set (adj2 := if Dict.contains t adj1 then adj1 else Dict.setitem t [] adj1).
  assert (∀ y, Dict.get_default y [] adj2 = Dict.get_default y [] adj) as Hsame.
  { intros y. unfold adj2, adj1. by rewrite !ensure_links. }
  unfold Dict.get_default at 1. rewrite dict_get_setitem, Hsame.
  destruct (decide (x = f)) as [->|Hne].
  - by rewrite decide_True.
  - rewrite decide_False by done. rewrite app_nil_r. apply Hsame.
Qed.

Lemma process_line_contains line adj x :
  Dict.contains x (process_line line adj)
  = Dict.contains x adj
    || match record_of line with
       | Some (f, t) => bool_decide (x = f) || bool_decide (x = t)
       | None => false
       end.
Proof.
  unfold record_of, process_line. simpl.
  destruct (fields line) as [|a [|f [|c [|t [|e l]]]]];
    simpl; try by rewrite orb_false_r.
  rewrite dict_contains_setitem, !ensure_contains.
  destruct (Dict.contains x adj), (bool_decide (x = f)), (bool_decide (x = t)); done.
Qed.

Lemma process_line_wf line adj : Dict.wf adj → Dict.wf (process_line line adj).
Proof.
  unfold process_line. simpl.
  destruct (fields line) as [|a [|f [|c [|t [|e l]]]]]; try done.
  intros Hwf. by apply dict_wf_setitem, ensure_wf, ensure_wf.
Qed.

Lemma targets_app x (l1 l2 : list string) :
  targets x (l1 ++ l2) = targets x l1 ++ targets x l2.
Proof. unfold targets. apply omap_app. Qed.

Lemma process_lines_links lines adj x :
  Dict.get_default x [] (foldl (λ adj line, process_line line adj) adj lines)
  = Dict.get_default x [] adj ++ targets x lines.
Proof.
  revert adj. induction lines as [|line lines IH]; intros adj; simpl.
  - by rewrite app_nil_r.
  - rewrite IH, process_line_links, <- app_assoc.
    by rewrite <- targets_app.
Qed.

Lemma process_lines_contains lines adj x :
  Dict.contains x (foldl (λ adj line, process_line line adj) adj lines) = true
  ↔ Dict.contains x adj = true
    ∨ ∃ line f t, line ∈ lines ∧ record_of line = Some (f, t) ∧ (x = f ∨ x = t).
Proof.
  revert adj. induction lines as [|line lines IH]; intros adj; simpl.
  - split; [by left | intros [?|(? & ? & ? & ?%elem_of_nil & _)]; done].
  - rewrite IH, process_line_contains, orb_true_iff. split.
    + intros [[?|Hrec]|(l & f & t & Hl & ? & ?)].
      * by left.
      * right. destruct (record_of line) as [[f t]|] eqn:Hr; [|done].
        exists line, f, t. split_and!; [by left | done |].
        apply orb_true_iff in Hrec as [?%bool_decide_eq_true|?%bool_decide_eq_true]; eauto.
      * right. exists l, f, t. split_and!; [by right | done..].
    + intros [?|(l & f & t & [->|Hl]%elem_of_cons & Hr & Hx)].
      * by left; left.
      * left; right. rewrite Hr. apply orb_true_iff.
        destruct Hx as [->| ->]; [left | right]; by apply bool_decide_eq_true.
      * right. eauto 10.
Qed.

Lemma process_lines_wf lines adj :
  Dict.wf adj → Dict.wf (foldl (λ adj line, process_line line adj) adj lines).
Proof.
  revert adj. induction lines as [|line lines IH]; intros adj Hwf; simpl;
    [done | by apply IH, process_line_wf].
Qed.

(** What [build_graph_from_file] does to the world. *)
Lemma build_graph_from_file_run header lines w :
  build_graph_from_file (header :: lines) w
  = let adj := foldl (λ adj line, process_line line adj) (adj_list (self w)) lines in
    (Ok (),
     {| self := {| cache_file := cache_file (self w); adj_list := adj;
                   start_page := start_page (self w);
                   end_page := end_page (self w) |};
        files := <[cache_file (self w) := adj]> (files w);
        stdout := stdout w ++ [GraphCached (cache_file (self w))] |}).
Proof. reflexivity. Qed.

Lemma loaded_eq header lines w :
  loaded (header :: lines) w
  = foldl (λ adj line, process_line line adj) (adj_list (self w)) lines.
Proof. reflexivity. Qed.
End ingestion.

Lemma build_graph_from_file_empty w :
  build_graph_from_file [] w = (Raise StopIteration, w).
Proof. reflexivity. Qed.

(** ** Stripping and splitting a line *)

Section strings.
Implicit Types (s x y : string) (c : ascii).

Lemma append_assoc x y s : (x +:+ y) +:+ s = x +:+ (y +:+ s).
Proof.
  induction x as [|c x IH]; [done |].
  change (String c ((x +:+ y) +:+ s) = String c (x +:+ (y +:+ s))).
  by rewrite IH.
Qed.

Lemma app_cons c x y : String c x +:+ y = String c (x +:+ y).
Proof. reflexivity. Qed.

Lemma split_nonempty s : Py.split tab s ≠ [].
Proof.
  destruct s as [|c s]; simpl; [done |].
  case_decide; [done |]. by destruct (Py.split tab s).
Qed.

Lemma length_split s : length (Py.split tab s) = S (tabs s).
Proof.
  induction s as [|c s IH]; simpl; [done |].
  case_decide; simpl; [by rewrite IH |].
  destruct (Py.split tab s); simpl in *; [done | done].
Qed.

Lemma split_tab_free s : tabs s = 0%nat → Py.split tab s = [s].
Proof.
  induction s as [|c s IH]; simpl; [done |].
  case_decide; [done |]. intros Hx. by rewrite IH.
Qed.

Lemma split_app x s :
  tabs x = 0%nat → Py.split tab (x +:+ String tab s) = x :: Py.split tab s.
Proof.
  induction x as [|c x IH]; simpl.
  - done.
  - case_decide; [done |]. intros Hx. by rewrite IH.
Qed.

(** [split] can be undone: the first field has no tab, and the rest of the
    line follows a tab. *)
Lemma split_cons_inv s x fs :
  Py.split tab s = x :: fs →
  tabs x = 0%nat
  ∧ match fs with
    | [] => s = x
    | _ => ∃ rest, s = x +:+ String tab rest ∧ Py.split tab rest = fs
    end.
Proof.
  revert x fs. induction s as [|c s IH]; intros x fs; simpl.
  - intros ?; by simplify_eq.
  - case_decide as Hc.
    + intros ?; simplify_eq. split; [done |].
      destruct (Py.split tab s) eqn:Hs; [by apply split_nonempty in Hs |].
      exists s. by rewrite Hs.
    + destruct (Py.split tab s) as [|x' fs'] eqn:Hs;
        [by apply split_nonempty in Hs |].
      intros ?; simplify_eq. destruct (IH _ _ eq_refl) as [Hx Hfs].
      split; [simpl; by rewrite decide_False |].
      destruct fs as [|f fs]; [by subst |].
      destruct Hfs as (rest & -> & Hrest). by exists rest.
Qed.

Lemma raw_fields_four (line a b c d : string) :
  raw_fields line = [a; b; c; d] →
  line = a +:+ String tab (b +:+ String tab (c +:+ String tab d))
  ∧ tabs a = 0%nat ∧ tabs b = 0%nat ∧ tabs c = 0%nat ∧ tabs d = 0%nat.
Proof.
  unfold raw_fields. intros H.
  apply split_cons_inv in H as (Ha & r1 & -> & H).
  apply split_cons_inv in H as (Hb & r2 & -> & H).
  apply split_cons_inv in H as (Hc & r3 & -> & H).
  apply split_cons_inv in H as (Hd & ->). done.
Qed.

Lemma tabs_app x y : tabs (x +:+ y) = (tabs x + tabs y)%nat.
Proof. induction x as [|c x IH]; simpl; [done |]. case_decide; lia. Qed.

Lemma tabs_lstrip s : (tabs (Py.lstrip s) ≤ tabs s)%nat.
Proof.
  induction s as [|c s IH]; simpl; [done |].
  destruct (Py.is_space c); simpl; case_decide; lia.
Qed.

Lemma tabs_rstrip s : (tabs (Py.rstrip s) ≤ tabs s)%nat.
Proof.
  induction s as [|c s IH]; simpl; [done |].
  destruct (Py.rstrip s) as [|c' r]; simpl in *.
  - destruct (Py.is_space c); simpl; case_decide; lia.
  - repeat case_decide; lia.
Qed.

Lemma blank_app x y : blank (x +:+ y) = blank x && blank y.
Proof.
  induction x as [|c x IH]; simpl; [done |]. by rewrite IH, andb_assoc.
Qed.

Lemma lstrip_blank s : blank s = true → Py.lstrip s = EmptyString.
Proof.
  induction s as [|c s IH]; simpl; [done |].
  intros [-> ?]%andb_true_iff. by apply IH.
Qed.

Lemma rstrip_blank s : blank s = true → Py.rstrip s = EmptyString.
Proof.
  induction s as [|c s IH]; simpl; [done |].
  intros [-> ?]%andb_true_iff. by rewrite IH.
Qed.

Lemma rstrip_not_blank s : blank s = false → Py.rstrip s ≠ EmptyString.
Proof.
  induction s as [|c s IH]; simpl; [done |].
  intros H. destruct (Py.rstrip s) eqn:Hr; [|done].
  destruct (Py.is_space c); [|done]. simpl in H. by apply IH in H.
Qed.

Lemma lstrip_not_blank s : blank s = false → Py.lstrip s ≠ EmptyString.
Proof.
  induction s as [|c s IH]; simpl; [done |].
  destruct (Py.is_space c); simpl; [done | done].
Qed.

Lemma blank_lstrip s : blank (Py.lstrip s) = blank s.
Proof.
  induction s as [|c s IH]; simpl; [done |].
  destruct (Py.is_space c) eqn:Hc; simpl; [done | by rewrite Hc].
Qed.

Lemma lstrip_app x y :
  blank x = false → Py.lstrip (x +:+ y) = Py.lstrip x +:+ y.
Proof.
  induction x as [|c x IH]; simpl; [done |].
  destruct (Py.is_space c); simpl; [done | done].
Qed.

Lemma lstrip_app_blank x y :
  blank x = true → Py.lstrip (x +:+ y) = Py.lstrip y.
Proof.
  induction x as [|c x IH]; simpl; [done |].
  intros [-> ?]%andb_true_iff. by apply IH.
Qed.

Lemma rstrip_cons c s :
  blank s = false → Py.rstrip (String c s) = String c (Py.rstrip s).
Proof.
  intros H%rstrip_not_blank. simpl. by destruct (Py.rstrip s).
Qed.

Lemma rstrip_app x y :
  blank y = false → Py.rstrip (x +:+ y) = x +:+ Py.rstrip y.
Proof.
  intros H. induction x as [|c x IH]; [done |].
  change (Py.rstrip (String c (x +:+ y)) = String c (x +:+ Py.rstrip y)).
  simpl. rewrite IH. destruct (x +:+ Py.rstrip y) eqn:Hx; [|done].
  destruct x; [|done]. by apply rstrip_not_blank in H.
Qed.

Lemma rstrip_app_blank x y :
  blank y = true → Py.rstrip (x +:+ y) = Py.rstrip x.
Proof.
  intros H. induction x as [|c x IH]; simpl; [by apply rstrip_blank |].
  by rewrite IH.
Qed.

(** A line of four fields without tabs, the first and the last not blank:
    [strip] trims the first on the left and the last on the right, and
    [split] gives the four fields back. *)
Lemma fields_four (a b c d : string) :
  tabs a = 0%nat → tabs b = 0%nat → tabs c = 0%nat → tabs d = 0%nat →
  blank a = false → blank d = false →
  fields (a +:+ String tab (b +:+ String tab (c +:+ String tab d)))
  = [Py.lstrip a; b; c; Py.rstrip d].
Proof.
  intros Ha Hb Hc Hd Hba Hbd. unfold fields, Py.strip.
  rewrite lstrip_app by done.
  assert (blank (c +:+ String tab d) = false) as H3.
  { rewrite blank_app. simpl. rewrite Hbd. by rewrite !andb_false_r. }
  assert (blank (b +:+ String tab (c +:+ String tab d)) = false) as H2.
  { rewrite blank_app. simpl. rewrite H3. by rewrite !andb_false_r. }
  rewrite rstrip_app by (simpl; by rewrite H2).
  rewrite rstrip_cons by done. rewrite rstrip_app by (simpl; by rewrite H3).
  rewrite rstrip_cons by done. rewrite rstrip_app by (simpl; by rewrite Hbd).
  rewrite rstrip_cons by done.
  rewrite split_app by (pose proof (tabs_lstrip a); lia).
  rewrite !split_app by done.
  rewrite split_tab_free by (pose proof (tabs_rstrip d); lia). done.
Qed.

(** With a blank first or last field, [strip] takes a tab away and fewer
    than four fields are left. *)
Lemma fields_four_blank (a b c d : string) :
  tabs a = 0%nat → tabs b = 0%nat → tabs c = 0%nat → tabs d = 0%nat →
  blank a || blank d = true →
  (length (fields (a +:+ String tab (b +:+ String tab (c +:+ String tab d))))
   < 4)%nat.
Proof.
  intros Ha Hb Hc Hd Hbl. unfold fields, Py.strip. rewrite length_split.
  destruct (blank a) eqn:Hba.
  - rewrite lstrip_app_blank by done. simpl Py.lstrip at 1.
    replace (Py.is_space tab) with true by done.
    pose proof (tabs_rstrip (Py.lstrip (b +:+ String tab (c +:+ String tab d)))).
    pose proof (tabs_lstrip (b +:+ String tab (c +:+ String tab d))) as Hl.
    rewrite !tabs_app in Hl. simpl in Hl. rewrite !tabs_app in Hl. simpl in Hl.
    lia.
  - simpl in Hbl. rewrite lstrip_app by done.
    replace (Py.lstrip a +:+ String tab (b +:+ String tab (c +:+ String tab d)))
      with ((Py.lstrip a +:+ String tab (b +:+ String tab c)) +:+ String tab d).
    2:{ by rewrite append_assoc, app_cons, append_assoc, app_cons. }
    rewrite rstrip_app_blank by (simpl; by rewrite Hbl).
    pose proof (tabs_rstrip (Py.lstrip a +:+ String tab (b +:+ String tab c))) as Hr.
    rewrite !tabs_app in Hr. simpl in Hr. rewrite !tabs_app in Hr. simpl in Hr.
    pose proof (tabs_lstrip a). lia.
Qed.

(** The record of a line that has four tab-separated fields as it stands. *)
Lemma record_of_raw_fields (line a b c d : string) :
  raw_fields line = [a; b; c; d] →
  record_of line
  = if blank a || blank d then None else Some (b, Py.rstrip d).
Proof.
  intros (-> & Ha & Hb & Hc & Hd)%raw_fields_four.
  destruct (blank a || blank d) eqn:Hbl.
  - apply record_of_None.
    pose proof (fields_four_blank a b c d Ha Hb Hc Hd Hbl). lia.
  - apply orb_false_iff in Hbl as [Hba Hbd].
    apply record_of_Some. exists (Py.lstrip a), c. by apply fields_four.
Qed.

(** The line terminator is white space: it goes with the trailing white
    space of the last field. *)
Lemma raw_fields_edge_line (a b c d : string) :
  tabs a = 0%nat → tabs b = 0%nat → tabs c = 0%nat → tabs d = 0%nat →
  raw_fields (edge_line a b c d)
  = [a; b; c; d +:+ String (ascii_of_nat 10) EmptyString].
Proof.
  intros Ha Hb Hc Hd. unfold raw_fields, edge_line.
  rewrite !split_app by done. rewrite split_tab_free; [done |].
  rewrite tabs_app. simpl. lia.
Qed.

Lemma occurrences_app x (l1 l2 : list string) :
  occurrences x (l1 ++ l2) = (occurrences x l1 + occurrences x l2)%nat.
Proof. unfold occurrences. by rewrite filter_app, length_app. Qed.

Lemma occurrences_targets f t lines :
  occurrences t (targets f lines) = records f t lines.
Proof.
  unfold occurrences, records, targets.
  induction lines as [|line lines IH]; [done |]. csimpl.
  destruct (record_of line) as [[f' t']|] eqn:Hr.
  - destruct (decide (f' = f)) as [->|Hf]; csimpl.
    + rewrite !filter_cons. destruct (decide (t' = t)) as [->|Ht].
      * rewrite decide_True by done. simpl. by rewrite IH.
      * rewrite decide_False by congruence. done.
    + rewrite filter_cons, decide_False by congruence. done.
  - rewrite filter_cons, decide_False by congruence. done.
Qed.
End strings.

(** What one more record does to the loaded mapping. *)
Lemma loaded_snoc_record header pre line f t w :
  record_of line = Some (f, t) →
  let before := loaded (header :: pre) w in
  let after := loaded (header :: pre ++ [line]) w in
  (∀ x, Dict.get_default x [] after
        = Dict.get_default x [] before ++ (if decide (x = f) then [t] else []))
  ∧ (∀ x, Dict.contains x after
          = Dict.contains x before || bool_decide (x = f) || bool_decide (x = t)).
Proof.
  intros Hr before after. subst before after.
  rewrite !loaded_eq, foldl_app. simpl. split; intros x.
  - rewrite process_line_links. unfold targets. simpl. rewrite Hr.
    destruct (decide (f = x)) as [->|Hne]; [by rewrite decide_True |].
    by rewrite decide_False by congruence.
  - rewrite process_line_contains, Hr. by rewrite orb_assoc.
Qed.

Lemma loaded_snoc_skip header pre line w :
  record_of line = None →
  loaded (header :: pre ++ [line]) w = loaded (header :: pre) w.
Proof.
  intros Hr. rewrite !loaded_eq, foldl_app. simpl.
  by rewrite process_line_skip.
Qed.

(** C4, amended. [build_graph_from_file] raises [StopIteration] on an empty
    source and leaves the world as it is. On every other source it ends
    normally, drops the first line whatever it holds, and skips every later
    line whose text, stripped of leading and trailing white space, does not
    split into exactly four tab-separated fields; for a line that does, it
    adds the edge from the second of these fields to the fourth: the
    destination is appended to the out-links of the source, both titles have
    an entry afterwards, and the first and third fields play no part.
    In terms of the line as it stands: a line with exactly four tab-separated
    fields is skipped when its first or its fourth field is blank, and
    otherwise adds the edge from its second field to its fourth field without
    trailing white space. *)
Theorem build_graph_from_file_reads_edge_list (header : string)
    (lines : list string) (w : world) :
  build_graph_from_file [] w = (Raise StopIteration, w)
  ∧ (build_graph_from_file (header :: lines) w).1 = Ok ()
  ∧ (∀ header', loaded (header' :: lines) w = loaded (header :: lines) w)
  ∧ (∀ pre line post,
       lines = pre ++ line :: post → length (fields line) ≠ 4%nat →
       loaded (header :: lines) w = loaded (header :: pre ++ post) w)
  ∧ (∀ pre line from_id from_title to_id to_title,
       lines = pre ++ [line] →
       fields line = [from_id; from_title; to_id; to_title] →
       let before := loaded (header :: pre) w in
       let after := loaded (header :: lines) w in
       (∀ x, Dict.get_default x [] after
             = Dict.get_default x [] before
               ++ (if decide (x = from_title) then [to_title] else []))
       ∧ (∀ x, Dict.contains x after
               = Dict.contains x before
                 || bool_decide (x = from_title) || bool_decide (x = to_title)))
  ∧ (∀ pre line from_id from_title to_id to_title,
       lines = pre ++ [line] →
       raw_fields line = [from_id; from_title; to_id; to_title] →
       let before := loaded (header :: pre) w in
       let after := loaded (header :: lines) w in
       if blank from_id || blank to_title then after = before
       else
         fields line
         = [Py.lstrip from_id; from_title; to_id; Py.rstrip to_title]
         ∧ (∀ x, Dict.get_default x [] after
                 = Dict.get_default x [] before
                   ++ (if decide (x = from_title)
                       then [Py.rstrip to_title] else []))
         ∧ (∀ x, Dict.contains x after
                 = Dict.contains x before
                   || bool_decide (x = from_title)
                   || bool_decide (x = Py.rstrip to_title))).
Proof.
  split_and!.
  - reflexivity.
  - by rewrite build_graph_from_file_run.
  - intros header'. by rewrite !loaded_eq.
  - intros pre line post -> Hlen. rewrite !loaded_eq, !foldl_app. simpl.
    by rewrite process_line_skip by by apply record_of_None.
  - intros pre line a f c t -> Hf.
    apply loaded_snoc_record, record_of_Some. eauto.
  - intros pre line a f c t -> Hraw before after. subst before after.
    pose proof (record_of_raw_fields _ _ _ _ _ Hraw) as Hr.
    destruct (blank a || blank t) eqn:Hbl.
    + by apply loaded_snoc_skip.
    + apply orb_false_iff in Hbl as [Hba Hbt]. split.
      * apply raw_fields_four in Hraw as (-> & ? & ? & ? & ?).
        by apply fields_four.
      * by apply loaded_snoc_record.
Qed.

(** C4 as stated fails, whether a field is counted on the line as it stands
    or the fourth field is taken as it stands: the code strips the line
    first. A line that starts with a tab has five tab-separated fields and
    adds the edge A -> B all the same; a line with an empty destination has
    four and is skipped. *)
Lemma build_graph_from_file_raw_fields_counterexample :
  raw_fields leading_tab_line = [""; "1"; "A"; "2"; "B"]
  ∧ loaded [header_line; leading_tab_line] new_world = [("A", ["B"]); ("B", [])]
  ∧ raw_fields trailing_tab_line = ["1"; "A"; "2"; ""]
  ∧ loaded [header_line; trailing_tab_line] new_world = []
  ∧ ¬ (∀ line, length (raw_fields line) ≠ 4%nat →
         loaded [header_line; line] new_world = loaded [header_line] new_world)
  ∧ ¬ (∀ line from_id from_title to_id to_title,
         raw_fields line = [from_id; from_title; to_id; to_title] →
         Dict.get_default from_title [] (loaded [header_line; line] new_world)
         = [to_title]).
Proof.
  split_and!; [reflexivity.. | |].
  - intros H. by specialize (H leading_tab_line ltac:(done)).
  - intros H. by specialize (H trailing_tab_line _ _ _ _ eq_refl).
Qed.

(** C5, amended. After [build_graph_from_file], the source and the
    destination of every record have an entry in the mapping, a record being
    a line that has exactly four tab-separated fields once stripped of
    leading and trailing white space. Every line that has four tab-separated
    fields as it stands, the first and the fourth not blank, is such a
    record, from its second field to its fourth without trailing white
    space. The out-links of a title are those it had before followed by the
    destinations of its records in file order, one per record: a destination
    occurs once more for each line that holds the edge, so a repeated edge is
    stored again. *)
Theorem build_graph_from_file_entries (header : string) (lines : list string)
    (w : world) :
  let g' := self (build_graph_from_file (header :: lines) w).2 in
  (∀ line from_title to_title,
     line ∈ lines → record_of line = Some (from_title, to_title) →
     Dict.contains from_title (adj_list g') = true
     ∧ Dict.contains to_title (adj_list g') = true)
  ∧ (∀ line from_id from_title to_id to_title,
       line ∈ lines →
       raw_fields line = [from_id; from_title; to_id; to_title] →
       blank from_id = false → blank to_title = false →
       record_of line = Some (from_title, Py.rstrip to_title)
       ∧ Dict.contains from_title (adj_list g') = true
       ∧ Dict.contains (Py.rstrip to_title) (adj_list g') = true
       ∧ Py.rstrip to_title ∈ get_connections g' from_title)
  ∧ (∀ title,
       get_connections g' title
       = get_connections (self w) title ++ targets title lines)
  ∧ (∀ from_title to_title,
       occurrences to_title (get_connections g' from_title)
       = (occurrences to_title (get_connections (self w) from_title)
          + records from_title to_title lines)%nat).
Proof.
  intros g'. subst g'. rewrite build_graph_from_file_run. simpl.
  assert (∀ title,
    get_connections
      {| cache_file := cache_file (self w);
         adj_list := foldl (λ adj line, process_line line adj)
                       (adj_list (self w)) lines;
         start_page := start_page (self w); end_page := end_page (self w) |}
      title
    = get_connections (self w) title ++ targets title lines) as Hlinks.
  { intros title. unfold get_connections. simpl. apply process_lines_links. }
  split_and!.
  - intros line f t Hl Hr.
    split; apply process_lines_contains; right; exists line, f, t; eauto.
  - intros line a f c t Hl Hraw Hba Hbt.
    pose proof (record_of_raw_fields _ _ _ _ _ Hraw) as Hr.
    rewrite Hba, Hbt in Hr. simpl in Hr. split_and!; [done | | |].
    + apply process_lines_contains; right. exists line, f, (Py.rstrip t). eauto.
    + apply process_lines_contains; right. exists line, f, (Py.rstrip t). eauto.
    + rewrite Hlinks. apply elem_of_app; right.
      unfold targets. apply list_elem_of_omap. exists line. split; [done |].
      by rewrite Hr, decide_True.
  - done.
  - intros f t. by rewrite Hlinks, occurrences_app, occurrences_targets.
Qed.

(** C5 as stated fails when a record is a line with four tab-separated
    fields as it stands: with an empty source id, or an empty destination
    title, the stripped line has three fields and is skipped, and its titles
    get no entry. *)
Lemma build_graph_from_file_entries_counterexample :
  raw_fields blank_id_line = [""; "A"; "2"; "B"]
  ∧ loaded [header_line; blank_id_line] new_world = []
  ∧ Dict.contains "A" (loaded [header_line; blank_id_line] new_world) = false
  ∧ Dict.contains "A" (loaded [header_line; trailing_tab_line] new_world) = false
  ∧ ¬ (∀ line from_id from_title to_id to_title,
         raw_fields line = [from_id; from_title; to_id; to_title] →
         let adj := loaded [header_line; line] new_world in
         Dict.contains from_title adj = true
         ∧ Dict.contains to_title adj = true).
Proof.
  split_and!; [reflexivity.. |].
  intros H. by destruct (H blank_id_line _ _ _ _ eq_refl) as [? _].
Qed.

(** ** The cache *)

Lemma cache_data_run file_name w :
  cache_data file_name w
  = (Ok (),
     {| self := self w;
        files := <[file_name := adj_list (self w)]> (files w);
        stdout := stdout w ++ [GraphCached file_name] |}).
Proof. reflexivity. Qed.

Lemma load_cache_run file_name w :
  load_cache file_name w
  = match files w !! file_name with
    | Some members =>
        (Ok true,
         {| self := {| cache_file := cache_file (self w);
                       adj_list := Dict.of_items members;
                       start_page := start_page (self w);
                       end_page := end_page (self w) |};
            files := files w;
            stdout := stdout w ++ [GraphLoaded file_name] |})
    | None => (Ok false, w)
    end.
Proof.
  unfold load_cache, mbind, M_bind, read_json. by destruct (files w !! file_name).
Qed.

(** C7. Writing the adjacency mapping to the cache and loading the cache
    into any graph object gives that object the same mapping: the same keys
    in the same order, each with the same out-link sequence. The hypothesis is
    the representation invariant of dictionaries, which ingestion keeps
    ([build_graph_from_file_wf]). *)
Theorem cache_round_trip (file_name : string) (w : world) (g0 : WikipediaGraph) :
  Dict.wf (adj_list (self w)) →
  let w1 := (cache_data file_name w).2 in
  let r := load_cache file_name
             {| self := g0; files := files w1; stdout := stdout w1 |} in
  (cache_data file_name w).1 = Ok ()
  ∧ r.1 = Ok true
  ∧ adj_list (self r.2) = adj_list (self w).
Proof.
  intros Hwf w1 r. subst w1 r. rewrite cache_data_run, load_cache_run. simpl.
  rewrite lookup_insert_eq. simpl. split_and!; [done..|].
  by apply dict_of_items_wf.
Qed.

(** ** Degrees *)

Lemma closed_spec (adj : dict (list string)) :
  closed adj = true
  ↔ ∀ a links b, (a, links) ∈ adj → b ∈ links → Dict.contains b adj = true.
Proof.
  unfold closed. rewrite forallb_forall. split.
  - intros H a links b Ha%list_elem_of_In Hb%list_elem_of_In.
    specialize (H _ Ha). simpl in H. rewrite forallb_forall in H. by apply H.
  - intros H [a links] Ha%list_elem_of_In. simpl. rewrite forallb_forall.
    intros b Hb%list_elem_of_In. eauto.
Qed.

Lemma in_degree_loop_none title (items : dict (list string)) n :
  (∀ a links, (a, links) ∈ items → title ∉ links) →
  in_degree_loop title items n = n.
Proof.
  revert n. induction items as [|[a links] items IH]; intros n H; simpl; [done |].
  rewrite decide_False by (apply (H a); by left).
  apply IH. intros a' links' ?. apply (H a'). by right.
Qed.

Lemma print_degrees_run title w :
  print_degrees title w
  = (Ok (),
     {| self := self w; files := files w;
        stdout := stdout w ++ [DegreePage title;
                               OutDegree (get_out_degree (self w) title);
                               InDegree (get_in_degree (self w) title)] |}).
Proof.
  unfold print_degrees, mbind, M_bind, get_self, print. simpl.
  by rewrite <- !app_assoc.
Qed.

(** ** The invariant of the data model is kept by ingestion *)

Lemma dict_get_Some_elem_of {V} k (v : V) (d : dict V) :
  Dict.get k d = Some v → (k, v) ∈ d.
Proof.
  induction d as [|[k' v'] d IH]; simpl; [done |].
  case_decide; [intros [= ->]; subst; by left | intros ?; right; by apply IH].
Qed.

Lemma dict_setitem_elem_of {V} a (l : V) k v (d : dict V) :
  (a, l) ∈ Dict.setitem k v d → (a, l) = (k, v) ∨ (a, l) ∈ d.
Proof.
  induction d as [|[k' v'] d IH]; simpl.
  - intros ?%list_elem_of_singleton. by left.
  - case_decide.
    + intros [?|?]%elem_of_cons; [by left | right; by right].
    + intros [->|[?|?]%IH]%elem_of_cons; [right; by left | by left | right; by right].
Qed.

Lemma closed_setitem k links (adj : dict (list string)) :
  closed adj = true →
  (∀ b, b ∈ links → Dict.contains b adj = true ∨ b = k) →
  closed (Dict.setitem k links adj) = true.
Proof.
  rewrite !closed_spec. intros Hcl Hlinks a l b Ha Hb.
  rewrite dict_contains_setitem. apply orb_true_iff.
  apply dict_setitem_elem_of in Ha as [[= -> ->]|Ha].
  - destruct (Hlinks b Hb) as [?| ->]; [by right | left].
    by apply bool_decide_eq_true.
  - right. by apply (Hcl a l).
Qed.

Lemma closed_ensure k (adj : dict (list string)) :
  closed adj = true →
  closed (if Dict.contains k adj then adj else Dict.setitem k [] adj) = true.
Proof.
  intros Hcl. destruct (Dict.contains k adj); [done |].
  apply closed_setitem; [done | by intros b ?%elem_of_nil].
Qed.

Lemma process_line_closed line (adj : dict (list string)) :
  closed adj = true → closed (process_line line adj) = true.
Proof.
  intros Hcl. unfold process_line. simpl.
  destruct (fields line) as [|a [|f [|c [|t [|x l]]]]]; try done.
  set (adj1 := if Dict.contains f adj then adj else Dict.setitem f [] adj).
  set (adj2 := if Dict.contains t adj1 then adj1 else Dict.setitem t [] adj1).
  assert (closed adj2 = true) as Hcl2 by by apply closed_ensure, closed_ensure.
  apply closed_setitem; [done |].
  intros b [Hb| ->%list_elem_of_singleton]%elem_of_app; left.
  - unfold Dict.get_default in Hb.
    destruct (Dict.get f adj2) as [links|] eqn:Hget; [|by apply elem_of_nil in Hb].
    apply dict_get_Some_elem_of in Hget.
    by apply (proj1 (closed_spec adj2) Hcl2 f links).
  - unfold adj2. rewrite ensure_contains.
    by rewrite bool_decide_eq_true_2, orb_true_r.
Qed.

(** Loading an edge list keeps the invariant; the graph built from a new
    object satisfies it. *)
Lemma build_graph_from_file_closed file w :
  closed (adj_list (self w)) = true → closed (loaded file w) = true.
Proof.
  destruct file as [|header lines]; [done |]. rewrite loaded_eq.
  generalize (adj_list (self w)).
  induction lines as [|line lines IH]; intros adj Hcl; simpl; [done |].
  by apply IH, process_line_closed.
Qed.

Lemma build_graph_from_file_wf file w :
  Dict.wf (adj_list (self w)) → Dict.wf (loaded file w).
Proof.
  destruct file as [|header lines]; [done |]. rewrite loaded_eq.
  apply process_lines_wf.
Qed.

Lemma degrees_absent (g : WikipediaGraph) (title : string) :
  closed (adj_list g) = true →
  Dict.contains title (adj_list g) = false →
  get_out_degree g title = 0 ∧ get_in_degree g title = 0.
Proof.
  intros Hcl Habs. split.
  - unfold get_out_degree, get_connections, Dict.get_default.
    unfold Dict.contains in Habs. by destruct (Dict.get _ _).
  - unfold get_in_degree. apply in_degree_loop_none.
    intros a links Ha Hin.
    rewrite (proj1 (closed_spec _) Hcl a links title Ha Hin) in Habs. done.
Qed.

(** C8, amended. [get_connections] is total: it returns the stored
    out-links, or the empty list for a title without entry. The degree report
    always ends normally, printing the two degrees. For a title without entry
    the out-degree is 0, and the in-degree is 0 when no page lists the title
    among its out-links. That is so in every graph that satisfies the
    invariant of the data model (every destination has an entry), hence in
    every graph that [build_graph_from_file] builds in a new object. *)
Theorem degrees_never_fail (title : string) (w : world) :
  let g := self w in
  get_connections g title
  = match Dict.get title (adj_list g) with Some links => links | None => [] end
  ∧ print_degrees title w
    = (Ok (),
       {| self := g; files := files w;
          stdout := stdout w ++ [DegreePage title;
                                 OutDegree (get_out_degree g title);
                                 InDegree (get_in_degree g title)] |})
  ∧ (Dict.contains title (adj_list g) = false → get_out_degree g title = 0)
  ∧ ((∀ a links, (a, links) ∈ adj_list g → title ∉ links) →
     get_in_degree g title = 0)
  ∧ (Dict.contains title (adj_list g) = false →
     closed (adj_list g) = true →
     get_out_degree g title = 0 ∧ get_in_degree g title = 0)
  ∧ (∀ file w0,
       adj_list (self w0) = [] →
       let g' := self (build_graph_from_file file w0).2 in
       Dict.contains title (adj_list g') = false →
       get_out_degree g' title = 0 ∧ get_in_degree g' title = 0).
Proof.
  intros g. split_and!.
  - unfold get_connections, Dict.get_default. by destruct (Dict.get _ _).
  - apply print_degrees_run.
  - intros Habs. unfold get_out_degree, get_connections, Dict.get_default.
    unfold Dict.contains in Habs. by destruct (Dict.get _ _).
  - intros Hnone. unfold get_in_degree. by apply in_degree_loop_none.
  - intros Habs Hcl. by apply degrees_absent.
  - intros file w0 Hnew g' Habs. apply degrees_absent; [|done].
    apply (build_graph_from_file_closed file w0). by rewrite Hnew.
Qed.

(** C8 as stated fails on a mapping that [load_cache] takes from a cache
    file, which it does not check: B has no entry, and two pages list it
    among their out-links, so that the report gives out-degree 0 and
    in-degree 2. *)
Lemma degrees_of_absent_title_counterexample :
  let w := (init "wikigraph_cache.json" unchecked_cache_world).2 in
  adj_list (self w)
  = [("A", ["B"; "C"; "A"]); ("C", ["A"; "D"; "B"]); ("E", [])]
  ∧ Dict.contains "B" (adj_list (self w)) = false
  ∧ get_out_degree (self w) "B" = 0
  ∧ get_in_degree (self w) "B" = 2
  ∧ stdout (print_degrees "B" w).2
    = [GraphLoaded "wikigraph_cache.json"; DegreePage "B"; OutDegree 0;
       InDegree 2]
  ∧ ¬ (∀ title,
         Dict.contains title (adj_list (self w)) = false →
         get_out_degree (self w) title = 0 ∧ get_in_degree (self w) title = 0).
Proof.
  split_and!; [reflexivity.. |].
  intros H. by destruct (H "B" eq_refl) as [_ ?].
Qed.

(** ** Session pointers *)

Lemma print_recommendations_run recs w :
  print_recommendations recs w
  = (Ok (),
     {| self := self w; files := files w;
        stdout := stdout w
                  ++ ((λ r : string * Z, Recommendation r.1 r.2) <$> recs) |}).
Proof.
  revert w. induction recs as [|r recs IH]; intros [g fs out]; simpl.
  - by rewrite app_nil_r.
  - unfold mbind, M_bind, print. simpl. rewrite IH. simpl.
    by rewrite <- app_assoc.
Qed.

(** What [find_shortest_path] does to the world, and what it returns. *)
Lemma find_shortest_path_run start_page' end_page' w :
  find_shortest_path start_page' end_page' w
  = let g' := {| cache_file := cache_file (self w); adj_list := adj_list (self w);
                 start_page := Some start_page'; end_page := Some end_page' |} in
    (if negb (Dict.contains start_page' (adj_list g'))
        || negb (Dict.contains end_page' (adj_list g'))
     then Ok Py.None_
     else if decide (start_page' = end_page')
     then Ok (Py.List [Py.Int 0; Py.List [Py.Str start_page']])
     else match bfs_loop (bfs_fuel g') g' end_page'
                  [(start_page', [start_page'])] ∅ with
          | Some (Some path) => Ok (Py.List (Py.Str <$> path))
          | Some None => Ok Py.None_
          | None => Raise OutOfFuel
          end,
     {| self := g'; files := files w; stdout := stdout w |}).
Proof.
  unfold find_shortest_path, mbind, M_bind, set_start_page, set_end_page,
    get_self, put_self, mbind, M_bind. cbn -[bfs_loop bfs_fuel].
  destruct (negb _ || negb _); [done |].
  case_decide; [done |].
  by destruct (bfs_loop _ _ _ _ _) as [[?|]|].
Qed.

Lemma find_shortest_path_self start_page' end_page' w :
  self (find_shortest_path start_page' end_page' w).2
  = {| cache_file := cache_file (self w); adj_list := adj_list (self w);
       start_page := Some start_page'; end_page := Some end_page' |}.
Proof. by rewrite find_shortest_path_run. Qed.

Lemma recommend_articles_self title top_n w :
  self (recommend_articles title top_n w).2 = self w.
Proof.
  unfold recommend_articles, mbind, M_bind, get_self. simpl.
  destruct (Dict.get _ _); [|done].
  destruct (similarities_loop _ _ _ _); [done |].
  simpl. by rewrite print_recommendations_run.
Qed.

Lemma print_shortest_path_self start_page' end_page' w :
  self (print_shortest_path start_page' end_page' w).2
  = self (find_shortest_path start_page' end_page' w).2.
Proof.
  unfold print_shortest_path, mbind at 1, M_bind at 1.
  destruct (find_shortest_path _ _ w) as [[v|e] w']; [|done]. simpl.
  destruct (Py.truthy v); [|done].
  destruct (Py.len v); [|done].
  unfold mbind, M_bind. simpl. by destruct (Py.join_items v).
Qed.

(** C10. [find_shortest_path] stores its two arguments in [start_page] and
    [end_page] whatever it returns, and leaves [adj_list] and [cache_file] as
    they were; [print_shortest_path] changes the object in the same way and
    no more; [print_degrees] and [recommend_articles] leave the object
    untouched. ([get_connections], [get_out_degree] and [get_in_degree] only
    read it.) *)
Theorem find_shortest_path_sets_session_pointers (start_page' end_page' : string)
    (w : world) :
  let g' := self (find_shortest_path start_page' end_page' w).2 in
  start_page g' = Some start_page'
  ∧ end_page g' = Some end_page'
  ∧ adj_list g' = adj_list (self w)
  ∧ cache_file g' = cache_file (self w)
  ∧ self (print_shortest_path start_page' end_page' w).2 = g'
  ∧ (∀ title, self (print_degrees title w).2 = self w)
  ∧ (∀ title top_n, self (recommend_articles title top_n w).2 = self w).
Proof.
  intros g'. subst g'. rewrite print_shortest_path_self, find_shortest_path_self.
  split_and!; [done.. | |].
  - intros title. by rewrite print_degrees_run.
  - intros title top_n. apply recommend_articles_self.
Qed.

(** ** Paths *)

Section paths.
Context (adj : dict (list string)).
Implicit Types (p q : list string) (s e t u : string).

Lemma is_path_snoc p u t :
  is_path adj p → last p = Some u → edge adj u t → is_path adj (p ++ [t]).
Proof.
  induction p as [|a p IH]; [done |].
  destruct p as [|b p]; simpl in *.
  - by intros _ [= ->] ?.
  - intros [Hab Hp] Hl He. split; [done |]. by apply IH.
Qed.

Lemma is_path_snoc_inv p t :
  is_path adj (p ++ [t]) →
  p = [] ∨ is_path adj p ∧ ∃ u, last p = Some u ∧ edge adj u t.
Proof.
  induction p as [|a p IH]; [by left |].
  destruct p as [|b p]; simpl in *.
  - intros [He _]. right. eauto.
  - intros [Hab Hp]. right.
    destruct (IH Hp) as [?|(Hp' & u & Hl & He)]; [done |]. eauto.
Qed.

Lemma path_start s : path_from_to adj s s [s].
Proof. by split_and!. Qed.

Lemma path_extend s u t p :
  path_from_to adj s u p → edge adj u t → path_from_to adj s t (p ++ [t]).
Proof.
  intros (Hp & Hh & Hl) He. split_and!.
  - by eapply is_path_snoc.
  - by destruct p.
  - apply last_snoc.
Qed.

Lemma path_snoc_inv s t q x :
  path_from_to adj s t (q ++ [x]) →
  x = t ∧ (q = [] ∧ s = t ∨ ∃ u, path_from_to adj s u q ∧ edge adj u t).
Proof.
  intros (Hp & Hh & Hl). rewrite last_snoc in Hl. injection Hl as ->.
  split; [done |].
  apply is_path_snoc_inv in Hp as [->|(Hq & u & Hu & He)].
  - left. simpl in Hh. by injection Hh as ->.
  - right. exists u. split; [|done]. split_and!; [done | | done].
    by destruct q.
Qed.
End paths.

(** A path, by positions: every title is followed by one of its out-links. *)
Lemma is_path_lookup adj (p : list string) :
  is_path adj p
  ↔ p ≠ [] ∧ ∀ i a b, p !! i = Some a → p !! S i = Some b → edge adj a b.
Proof.
  induction p as [|a p IH]; [split; [done | by intros [? _]] |].
  destruct p as [|b p].
  - split; [|done]. intros _. split; [done |]. by intros [|i] ? ? ? ?.
  - change (is_path adj (a :: b :: p)) with (edge adj a b ∧ is_path adj (b :: p)).
    rewrite IH. split.
    + intros [Hab [_ Hp]]. split; [done |].
      intros [|i] x y Hx Hy; simpl in *; [by simplify_eq |]. by apply (Hp i).
    + intros [_ Hp]. split_and!; [by apply (Hp 0%nat) | done |].
      intros i x y Hx Hy. by apply (Hp (S i)).
Qed.

(** ** The search *)

Lemma NoDup_fst_agree {A B} (l : list (A * B)) k x y :
  NoDup l.*1 → (k, x) ∈ l → (k, y) ∈ l → x = y.
Proof.
  induction l as [|[k' z] l IH]; csimpl; [by intros _ ?%elem_of_nil |].
  intros [Hk Hl]%NoDup_cons Hx%elem_of_cons Hy%elem_of_cons.
  destruct Hx as [Hx|Hx], Hy as [Hy|Hy]; simplify_eq.
  - done.
  - destruct Hk. apply list_elem_of_fmap. by exists (k', y).
  - destruct Hk. apply list_elem_of_fmap. by exists (k', x).
  - by apply IH.
Qed.

Lemma fresh_elem_of n neighbors (visited : gset string) :
  n ∈ fresh neighbors visited → n ∈ neighbors ∧ n ∉ visited.
Proof.
  revert visited. induction neighbors as [|a rest IH]; intros visited; simpl.
  - by intros ?%elem_of_nil.
  - case_decide as Ha.
    + intros [? ?]%IH. split; [by right | done].
    + intros [->|[? ?]%IH]%elem_of_cons; [split; [by left | done] |].
      split; [by right | set_solver].
Qed.

Lemma fresh_NoDup neighbors (visited : gset string) :
  NoDup (fresh neighbors visited).
Proof.
  revert visited. induction neighbors as [|a rest IH]; intros visited; simpl.
  - constructor.
  - case_decide; [apply IH |]. apply NoDup_cons. split; [|apply IH].
    intros [_ Ha]%fresh_elem_of. set_solver.
Qed.

Lemma fresh_cover n neighbors (visited : gset string) :
  n ∈ neighbors → n ∈ visited ∨ n ∈ fresh neighbors visited.
Proof.
  revert visited. induction neighbors as [|a rest IH]; intros visited; simpl.
  - by intros ?%elem_of_nil.
  - case_decide as Ha.
    + intros [->|?]%elem_of_cons; [by left | by apply IH].
    + intros [->|Hn]%elem_of_cons; [right; by left |].
      destruct (IH ({[a]} ∪ visited) Hn) as [[->%elem_of_singleton|?]%elem_of_union|?].
      * right; by left.
      * by left.
      * right; by right.
Qed.

Lemma enqueue_neighbors_fresh path neighbors queue (visited : gset string) :
  enqueue_neighbors path neighbors queue visited
  = (queue ++ ((λ n, (n, path ++ [n])) <$> fresh neighbors visited),
     list_to_set (fresh neighbors visited) ∪ visited).
Proof.
  revert queue visited.
  induction neighbors as [|a rest IH]; intros queue visited; simpl.
  - rewrite app_nil_r. f_equal. set_solver.
  - case_decide; [apply IH |]. rewrite IH. csimpl.
    rewrite <- app_assoc. f_equal. set_solver.
Qed.

Section bfs.
Context (g : WikipediaGraph) (s e : string).
Local Abbreviation adj := (adj_list g).
Implicit Types (queue processed : list (string * list string))
  (visited : gset string) (p q : list string).

Lemma bfs_inv_init : bfs_inv adj s e [] [(s, [s])] {[s]}.
Proof.
  split; simpl.
  - intros v p [= -> ->]%list_elem_of_singleton. apply path_start.
  - by left.
  - repeat constructor.
  - intros v p v' p' [= <- <-] [= -> ->]%list_elem_of_singleton. simpl. lia.
  - apply NoDup_singleton.
  - intros v. set_solver.
  - by intros u pu t ?%elem_of_nil.
  - by intros u pu ?%elem_of_nil.
Qed.

Lemma bfs_inv_step processed v p queue visited :
  bfs_inv adj s e processed ((v, p) :: queue) visited →
  v ≠ e →
  let F := fresh (get_connections g v) ({[v]} ∪ visited) in
  bfs_inv adj s e (processed ++ [(v, p)])
    (queue ++ ((λ n, (n, p ++ [n])) <$> F))
    (list_to_set F ∪ ({[v]} ∪ visited)).
Proof.
  intros [Hpaths Hstart Hsorted Hbound Hnodup Hvis Hexp Hnot] Hve F.
  set (new := (λ n, (n, p ++ [n])) <$> F).
  set (D := processed ++ (v, p) :: queue) in *.
  assert ((processed ++ [(v, p)]) ++ queue ++ new = D ++ new) as HD.
  { unfold D. by rewrite <- !app_assoc. }
  assert ((v, p) ∈ D) as HvD.
  { unfold D. apply elem_of_app. right. by left. }
  assert (∀ x px, (x, px) ∈ new → x ∈ F ∧ px = p ++ [x]) as Hnew.
  { intros x px (n & [= -> ->] & Hn)%list_elem_of_fmap. done. }
  assert (∀ x px, (x, px) ∈ D → (length px ≤ S (length p))%nat) as Hb.
  { intros x px. by apply (Hbound v p). }
  apply StronglySorted_cons in Hsorted as [Hhd Hsorted].
  split; rewrite ?HD.
  - intros x px [?|[Hx ->]%Hnew]%elem_of_app; [by apply Hpaths |].
    apply path_extend with v; [by apply Hpaths |].
    apply fresh_elem_of in Hx as [Hx _]. done.
  - apply elem_of_app. by left.
  - apply StronglySorted_app. split_and!; [|done|].
    + intros [x1 p1] [x2 p2] H1 [_ ->]%Hnew. simpl.
      rewrite length_app. simpl.
      assert ((length p1 ≤ S (length p))%nat); [|lia].
      apply (Hb x1). unfold D. apply elem_of_app. right. by right.
    + unfold new. clear. induction F as [|a F' IH]; csimpl; [constructor |].
      apply StronglySorted_cons. split; [|done].
      apply Forall_forall. intros [x px] (n & [= -> ->] & _)%list_elem_of_fmap.
      simpl. by rewrite !length_app.
  - intros v2 p2 v' p' Hhead Hin.
    assert ((length p ≤ length p2)%nat) as Hle.
    { destruct queue as [|[v3 p3] queue]; simpl in Hhead.
      - apply head_Some_elem_of, Hnew in Hhead as [_ ->].
        rewrite length_app. lia.
      - injection Hhead as -> ->. by apply Forall_cons in Hhd as [? _]. }
    apply elem_of_app in Hin as [Hin%Hb|[_ ->]%Hnew]; [lia |].
    rewrite length_app. simpl. lia.
  - rewrite fmap_app.
    assert (new.*1 = F) as ->.
    { unfold new. rewrite <- list_fmap_compose. apply list_fmap_id. }
    apply NoDup_app. split_and!; [done | | apply fresh_NoDup].
    intros x Hx%Hvis [_ Hx']%fresh_elem_of. set_solver.
  - intros x. rewrite fmap_app.
    assert (new.*1 = F) as ->.
    { unfold new. rewrite <- list_fmap_compose. apply list_fmap_id. }
    rewrite elem_of_app, <- Hvis.
    assert (v ∈ visited).
    { apply Hvis. apply list_elem_of_fmap. by exists (v, p). }
    set_solver.
  - intros u pu t [Hu|[= -> ->]%list_elem_of_singleton]%elem_of_app He.
    + destruct (Hexp u pu t Hu He) as (pt & Hpt & Hlen).
      exists pt. split; [|done]. apply elem_of_app. by left.
    + destruct (fresh_cover t _ ({[v]} ∪ visited) He) as [Ht|Ht].
      * assert (t ∈ D.*1) as ([t' pt] & -> & Hpt)%list_elem_of_fmap.
        { apply Hvis. assert (v ∈ visited); [|set_solver].
          apply Hvis. apply list_elem_of_fmap. by exists (v, p). }
        exists pt. split; [apply elem_of_app; by left | by apply (Hb t')].
      * exists (p ++ [t]). split.
        -- apply elem_of_app. right. apply list_elem_of_fmap. by exists t.
        -- rewrite length_app. simpl. lia.
  - intros u pu [Hu|[= -> ->]%list_elem_of_singleton]%elem_of_app; [|done].
    by apply (Hnot u pu).
Qed.

(** Every title a path from [s] reaches has been discovered with a path
    that is no longer, unless an entry with a shorter path still waits. *)
Lemma bfs_inv_discovered processed queue visited q t :
  bfs_inv adj s e processed queue visited →
  path_from_to adj s t q →
  (∃ p, (t, p) ∈ processed ++ queue ∧ (length p ≤ length q)%nat)
  ∨ (∃ u p, (u, p) ∈ queue ∧ (length p < length q)%nat).
Proof.
  intros Hinv. revert t. induction q as [|x q IH] using rev_ind; intros t Hq.
  - by destruct Hq as [[] _].
  - apply path_snoc_inv in Hq as [-> [[-> ->]|(u & Hu & He)]].
    + left. exists [t]. split; [apply Hinv | done].
    + rewrite length_app. simpl.
      destruct (IH u Hu) as [(pu & [Hin|Hin]%elem_of_app & Hle)|(u' & p' & Hin & Hlt)].
      * destruct (inv_expanded _ _ _ _ _ _ Hinv u pu t Hin He) as (pt & Hpt & Hlen).
        left. exists pt. split; [done | lia].
      * right. exists u, pu. split; [done | lia].
      * right. exists u', p'. split; [done | lia].
Qed.

(** Partial correctness of the loop: from a state that satisfies the
    invariant, an answer is a shortest path, and [None] means there is no
    path. *)
Lemma bfs_loop_correct fuel processed queue visited r :
  bfs_inv adj s e processed queue visited →
  bfs_loop fuel g e queue visited = Some r →
  match r with
  | Some p =>
      path_from_to adj s e p
      ∧ ∀ q, path_from_to adj s e q → (length p ≤ length q)%nat
  | None => ∀ q, ¬ path_from_to adj s e q
  end.
Proof.
  revert processed queue visited.
  induction fuel as [|fuel IH]; intros processed queue visited Hinv; [done |].
  simpl. destruct queue as [|[v p] queue].
  - intros [= <-] q Hq.
    destruct (bfs_inv_discovered _ _ _ _ _ Hinv Hq)
      as [(p & Hin & _)|(u & p & ?%elem_of_nil & _)]; [|done].
    rewrite app_nil_r in Hin. by apply (inv_not_end _ _ _ _ _ _ Hinv e p).
  - case_decide as Hv.
    + subst v. intros [= <-].
      assert ((e, p) ∈ processed ++ (e, p) :: queue) as Hep.
      { apply elem_of_app. right. by left. }
      split; [by apply Hinv |]. intros q Hq.
      destruct (bfs_inv_discovered _ _ _ _ _ Hinv Hq)
        as [(p' & Hin & Hle)|(u & p' & Hin & Hlt)].
      * by rewrite (NoDup_fst_agree _ _ _ _ (inv_nodup _ _ _ _ _ _ Hinv) Hep Hin).
      * apply elem_of_cons in Hin as [[= -> ->]|Hin]; [lia |].
        pose proof (inv_sorted _ _ _ _ _ _ Hinv) as [Hhd _]%StronglySorted_cons.
        rewrite Forall_forall in Hhd. specialize (Hhd _ Hin). simpl in Hhd. lia.
    + rewrite enqueue_neighbors_fresh. apply IH with (processed ++ [(v, p)]).
      by apply bfs_inv_step.
Qed.

(** The first iteration marks the start page as visited: it makes no
    difference whether it was marked before. *)
Lemma bfs_loop_start fuel :
  bfs_loop fuel g e [(s, [s])] ∅ = bfs_loop fuel g e [(s, [s])] {[s]}.
Proof.
  destruct fuel as [|fuel]; simpl; [done |]. case_decide; [done |].
  assert (({[s]} ∪ ∅ : gset string) = {[s]} ∪ {[s]}) as -> by set_solver.
  done.
Qed.

(** *** Termination *)

Lemma get_connections_mentioned v n :
  n ∈ get_connections g v → n ∈ mentioned g.
Proof.
  unfold get_connections, mentioned, Dict.get_default.
  induction adj as [|[k links] d IH]; csimpl; [by intros ?%elem_of_nil |].
  case_decide; simpl; set_solver.
Qed.

Lemma bfs_loop_fuel fuel queue visited :
  (length queue + size (mentioned g ∖ visited) < fuel)%nat →
  is_Some (bfs_loop fuel g e queue visited).
Proof.
  revert queue visited.
  induction fuel as [|fuel IH]; intros queue visited Hlt; [lia |].
  simpl. destruct queue as [|[v p] queue]; [eauto |].
  case_decide; [eauto |].
  rewrite enqueue_neighbors_fresh. apply IH.
  rewrite length_app, length_fmap. simpl in Hlt.
  set (F := fresh (get_connections g v) ({[v]} ∪ visited)).
  assert (size (list_to_set F : gset string) = length F) as HF.
  { apply size_list_to_set, fresh_NoDup. }
  assert ((list_to_set F : gset string) ⊆ mentioned g ∖ visited) as Hsub.
  { intros n [Hn Hv]%elem_of_list_to_set%fresh_elem_of.
    apply elem_of_difference. split; [by eapply get_connections_mentioned |].
    set_solver. }
  assert (size (mentioned g ∖ (list_to_set F ∪ ({[v]} ∪ visited)) ∪ list_to_set F)
          ≤ size (mentioned g ∖ visited))%nat as Hle.
  { apply subseteq_size. set_solver. }
  rewrite size_union in Hle by set_solver. lia.
Qed.

Lemma size_list_to_set_le (l : list string) :
  (size (list_to_set l : gset string) ≤ length l)%nat.
Proof.
  induction l as [|a l IH]; [by rewrite list_to_set_nil, size_empty |].
  rewrite list_to_set_cons, size_union_alt, size_singleton. simpl.
  assert (size (list_to_set l ∖ {[a]} : gset string) ≤ size (list_to_set l : gset string))%nat.
  { apply subseteq_size. set_solver. }
  lia.
Qed.

(** The fuel [find_shortest_path] grants is enough. *)
Lemma bfs_loop_terminates :
  is_Some (bfs_loop (bfs_fuel g) g e [(s, [s])] ∅).
Proof.
  apply bfs_loop_fuel. unfold bfs_fuel. simpl.
  assert (size (mentioned g ∖ ∅) ≤ size (mentioned g))%nat
    by (apply subseteq_size; set_solver).
  pose proof (size_list_to_set_le (concat adj.*2)). unfold mentioned in *. lia.
Qed.

(** Each title is enqueued at most once: a title the loop enqueues was not
    visited, and is neither the page being expanded nor enqueued again. *)
Lemma bfs_enqueued_fresh fuel queue visited :
  NoDup (bfs_enqueued fuel g e queue visited)
  ∧ (∀ n, n ∈ bfs_enqueued fuel g e queue visited →
          (n ∉ visited) ∧ (∀ v p rest, queue = (v, p) :: rest → n ≠ v)).
Proof.
  revert queue visited. induction fuel as [|fuel IH]; intros queue visited; simpl.
  { split; [constructor | by intros n ?%elem_of_nil]. }
  destruct queue as [|[v p] queue].
  { split; [constructor | by intros n ?%elem_of_nil]. }
  case_decide.
  { split; [constructor | by intros n ?%elem_of_nil]. }
  rewrite enqueue_neighbors_fresh, fmap_app, <- list_fmap_compose.
  rewrite <- (length_fmap fst queue), drop_app_length.
  set (F := fresh (get_connections g v) ({[v]} ∪ visited)).
  assert (((λ n, (n, p ++ [n])) <$> F).*1 = F) as HF.
  { rewrite <- list_fmap_compose. apply list_fmap_id. }
  rewrite list_fmap_compose, HF.
  destruct (IH (queue ++ ((λ n, (n, p ++ [n])) <$> F))
              (list_to_set F ∪ ({[v]} ∪ visited))) as [Hnd Hout].
  split.
  - apply NoDup_app. split_and!; [apply fresh_NoDup | | done].
    intros n Hn [Hn' _]%Hout. set_solver.
  - intros n [[_ Hn]%fresh_elem_of|[Hn _]%Hout]%elem_of_app;
      (split; [set_solver |]); intros ? ? ? [= <- <- <-]; set_solver.
Qed.
End bfs.

(** ** Shortest path: the claims *)

Lemma find_shortest_path_same_page s w :
  Dict.contains s (adj_list (self w)) = true →
  (find_shortest_path s s w).1 = Ok (Py.List [Py.Int 0; Py.List [Py.Str s]]).
Proof.
  intros Hs. rewrite find_shortest_path_run. simpl. rewrite Hs. simpl.
  by rewrite decide_True.
Qed.

(** The search proper: for two distinct titles that have an entry. *)
Lemma find_shortest_path_search s e w :
  Dict.contains s (adj_list (self w)) = true →
  Dict.contains e (adj_list (self w)) = true →
  s ≠ e →
  ∃ r,
    (find_shortest_path s e w).1
    = Ok (match r with Some p => Py.List (Py.Str <$> p) | None => Py.None_ end)
    ∧ match r with
      | Some p =>
          path_from_to (adj_list (self w)) s e p
          ∧ ∀ q, path_from_to (adj_list (self w)) s e q →
                 (length p ≤ length q)%nat
      | None => ∀ q, ¬ path_from_to (adj_list (self w)) s e q
      end.
Proof.
  intros Hs He Hne. rewrite find_shortest_path_run. cbn -[bfs_loop bfs_fuel].
  rewrite Hs, He. cbn -[bfs_loop bfs_fuel]. rewrite decide_False by done.
  set (g' := {| cache_file := _; adj_list := _; start_page := _; end_page := _ |}).
  destruct (bfs_loop_terminates g' s e) as [r Hr]. rewrite Hr.
  exists r. split; [by destruct r |].
  rewrite bfs_loop_start in Hr.
  apply (bfs_loop_correct g' s e _ [] _ _ r (bfs_inv_init g' s e) Hr).
Qed.

(** C1. For two distinct titles that both have an entry, [find_shortest_path]
    returns [None] or a list of titles; the list starts with the start page,
    ends with the end page, each consecutive pair is joined by an edge of the
    graph, and no directed path between the two pages has fewer steps. *)
Theorem find_shortest_path_optimal (start_page' end_page' : string) (w : world) :
  Dict.contains start_page' (adj_list (self w)) = true →
  Dict.contains end_page' (adj_list (self w)) = true →
  start_page' ≠ end_page' →
  (find_shortest_path start_page' end_page' w).1 = Ok Py.None_
  ∨ ∃ path,
      (find_shortest_path start_page' end_page' w).1
      = Ok (Py.List (Py.Str <$> path))
      ∧ is_path (adj_list (self w)) path
      ∧ head path = Some start_page'
      ∧ last path = Some end_page'
      ∧ ∀ q, path_from_to (adj_list (self w)) start_page' end_page' q →
             steps path ≤ steps q.
Proof.
  intros Hs He Hne.
  destruct (find_shortest_path_search _ _ _ Hs He Hne) as ([p|] & Hr & Hp);
    [right | by left].
  destruct Hp as [(? & ? & ?) Hmin]. exists p. split_and!; [done..|].
  intros q Hq. specialize (Hmin q Hq). unfold steps. lia.
Qed.

(** C6. [find_shortest_path] returns [None] exactly when the start page or
    the end page has no entry or no directed path leads from the one to the
    other; in particular a title without entry, asked against itself, gives
    [None]. *)
Theorem find_shortest_path_not_found (start_page' end_page' : string) (w : world) :
  ((find_shortest_path start_page' end_page' w).1 = Ok Py.None_
   ↔ Dict.contains start_page' (adj_list (self w)) = false
     ∨ Dict.contains end_page' (adj_list (self w)) = false
     ∨ ¬ ∃ p, path_from_to (adj_list (self w)) start_page' end_page' p)
  ∧ (Dict.contains start_page' (adj_list (self w)) = false →
     (find_shortest_path start_page' start_page' w).1 = Ok Py.None_).
Proof.
  assert (∀ s e, Dict.contains s (adj_list (self w)) = false
                 ∨ Dict.contains e (adj_list (self w)) = false →
                 (find_shortest_path s e w).1 = Ok Py.None_) as Habsent.
  { intros s e H. rewrite find_shortest_path_run. simpl.
    by destruct H as [-> | ->]; rewrite ?orb_true_r. }
  split; [|intros H; apply Habsent; by left].
  destruct (Dict.contains start_page' (adj_list (self w))) eqn:Hs;
    [|split; [by left | intros _; apply Habsent; by left]].
  destruct (Dict.contains end_page' (adj_list (self w))) eqn:He;
    [|split; [by right; left | intros _; apply Habsent; by right]].
  destruct (decide (start_page' = end_page')) as [<-|Hne].
  - rewrite find_shortest_path_same_page by done.
    split; [done | intros [?|[?|Hno]]; [done.. |]].
    destruct Hno. exists [start_page']. apply path_start.
  - destruct (find_shortest_path_search _ _ _ Hs He Hne) as ([p|] & -> & Hp).
    + split; [done | intros [?|[?|Hno]]; [done.. |]].
      destruct Hno. exists p. apply Hp.
    + split; [|done]. intros _. right; right. intros [q Hq]. by apply (Hp q).
Qed.

Lemma recommend_articles_run title top_n w :
  recommend_articles title top_n w
  = (Ok Py.None_,
     {| self := self w; files := files w;
        stdout :=
          stdout w
          ++ match Dict.get title (adj_list (self w)) with
             | None => [PageNotInNetwork title]
             | Some links =>
                 match similarities_loop title (list_to_set links)
                         (adj_list (self w)) [] with
                 | [] => [NoRecommendations title]
                 | similarities =>
                     TopRecommendations top_n title
                     :: ((λ r : string * Z, Recommendation r.1 r.2)
                         <$> Py.slice_to top_n (Py.sort_reverse snd similarities))
                 end
             end |}).
Proof.
  unfold recommend_articles, mbind, M_bind, get_self. simpl.
  destruct (Dict.get _ _); [|done].
  destruct (similarities_loop _ _ _ _) eqn:Hsim; [done |].
  rewrite print_recommendations_run. simpl.
  by rewrite <- app_assoc.
Qed.

(** C9. [find_shortest_path] ends with a value for every graph and every
    pair of titles: the iterations granted are never used up. The loop
    enqueues no title twice, the start page included. [recommend_articles]
    ends, with [None], for every title and every [top_n]. *)
Theorem queries_terminate (start_page' end_page' title : string) (top_n : Z)
    (w : world) :
  (∃ r, (find_shortest_path start_page' end_page' w).1 = Ok r)
  ∧ (∀ fuel,
       NoDup (start_page'
              :: bfs_enqueued fuel (self w) end_page'
                   [(start_page', [start_page'])] ∅))
  ∧ (recommend_articles title top_n w).1 = Ok Py.None_.
Proof.
  split_and!.
  - rewrite find_shortest_path_run. cbn -[bfs_loop bfs_fuel].
    destruct (negb _ || negb _); [eauto |]. case_decide; [eauto |].
    set (g' := {| cache_file := _; adj_list := _; start_page := _; end_page := _ |}).
    destruct (bfs_loop_terminates g' start_page' end_page') as [[p|] ->]; eauto.
  - intros fuel.
    destruct (bfs_enqueued_fresh (self w) end_page' fuel
                [(start_page', [start_page'])] ∅) as [Hnd Hout].
    apply NoDup_cons. split; [|done].
    intros [_ Hs]%Hout. by apply (Hs start_page' [start_page'] []).
  - by rewrite recommend_articles_run.
Qed.

(** C2. On a graph with the single page A, [find_shortest_path] from A to A
    returns the two-item list [[0, ["A"]]]: an integer and a list, not the
    one-title path; [print_shortest_path] then announces one step and raises
    [TypeError] when it joins the items. *)
Theorem find_shortest_path_same_page_shape :
  let w := {| self := {| cache_file := "wikigraph_cache.json";
                         adj_list := [("A", [])];
                         start_page := None; end_page := None |};
              files := ∅; stdout := [] |} in
  (find_shortest_path "A" "A" w).1 = Ok (Py.List [Py.Int 0; Py.List [Py.Str "A"]])
  ∧ (find_shortest_path "A" "A" w).1 ≠ Ok (Py.List [Py.Str "A"])
  ∧ print_shortest_path "A" "A" w
    = (Raise TypeError,
       {| self := {| cache_file := "wikigraph_cache.json";
                     adj_list := [("A", [])];
                     start_page := Some "A"; end_page := Some "A" |};
          files := ∅; stdout := [ShortestPathSteps 1] |}).
Proof. by split_and!. Qed.

(** ** Recommendations *)

Section sort_reverse.
Context {A : Type} (key : A → Z).

Lemma insert_reverse_perm x l : Py.insert_reverse key x l ≡ₚ x :: l.
Proof.
  induction l as [|y l IH]; simpl; [done |].
  destruct (key y <=? key x); [done |].
  rewrite IH. apply Permutation_swap.
Qed.

Lemma sort_reverse_perm l : Py.sort_reverse key l ≡ₚ l.
Proof.
  induction l as [|x l IH]; simpl; [done |].
  by rewrite insert_reverse_perm, IH.
Qed.

Lemma insert_reverse_sorted x l :
  StronglySorted (λ a b, key b ≤ key a) l →
  StronglySorted (λ a b, key b ≤ key a) (Py.insert_reverse key x l).
Proof.
  induction l as [|y l IH]; simpl; [repeat constructor |].
  intros [Hy Hl]%StronglySorted_cons.
  destruct (key y <=? key x) eqn:Hle.
  - apply Z.leb_le in Hle. apply StronglySorted_cons. split.
    + apply Forall_cons. split; [done |].
      eapply Forall_impl; [exact Hy |]. simpl. intros; lia.
    + by apply StronglySorted_cons.
  - apply Z.leb_gt in Hle. apply StronglySorted_cons. split; [|by apply IH].
    rewrite insert_reverse_perm. apply Forall_cons. split; [lia | done].
Qed.

Lemma sort_reverse_sorted l :
  StronglySorted (λ a b, key b ≤ key a) (Py.sort_reverse key l).
Proof.
  induction l as [|x l IH]; simpl; [constructor |].
  by apply insert_reverse_sorted.
Qed.
End sort_reverse.

Lemma slice_to_nonneg {A} (n : Z) (l : list A) :
  0 ≤ n → Py.slice_to n l = take (Z.to_nat n) l.
Proof. intros Hn. unfold Py.slice_to. by rewrite (proj2 (Z.leb_le 0 n) Hn). Qed.

Lemma reported_recommendations (recs : list (string * Z)) :
  reported ((λ r : string * Z, Recommendation r.1 r.2) <$> recs) = recs.
Proof.
  unfold reported. induction recs as [|[page shared] recs IH]; csimpl; [done |].
  by rewrite IH.
Qed.

Lemma similarities_loop_candidates title page_links items similarities :
  similarities_loop title page_links items similarities
  = similarities ++ omap (candidate title page_links) items.
Proof.
  revert similarities.
  induction items as [|[other links] items IH]; intros similarities; csimpl.
  - by rewrite app_nil_r.
  - unfold candidate at 1. simpl. case_decide; [apply IH |].
    destruct (0 <? _); rewrite IH; [by rewrite <- app_assoc | done].
Qed.

(** What [recommend_articles] reports for a title that has an entry. *)
Lemma recommended_eq title top_n w links :
  Dict.get title (adj_list (self w)) = Some links →
  recommended title top_n w
  = Py.slice_to top_n
      (Py.sort_reverse snd
         (omap (candidate title (list_to_set links)) (adj_list (self w)))).
Proof.
  intros Hget. unfold recommended.
  rewrite recommend_articles_run, Hget. simpl. rewrite drop_app_length.
  rewrite similarities_loop_candidates. simpl.
  destruct (omap _ _) as [|r sims] eqn:Hsims.
  - simpl. unfold Py.slice_to. simpl. by destruct (0 <=? top_n); rewrite take_nil.
  - unfold reported at 1. csimpl. fold (reported). apply reported_recommendations.
Qed.

Lemma candidate_Some title page_links item page shared :
  candidate title page_links item = Some (page, shared)
  ↔ item.1 ≠ title ∧ page = item.1
    ∧ shared = Z.of_nat (size (page_links ∩ list_to_set item.2))
    ∧ 0 < shared.
Proof.
  unfold candidate. case_decide as Ht.
  - split; [done | by intros (? & _)].
  - destruct (0 <? _) eqn:Hpos.
    + apply Z.ltb_lt in Hpos. split; [by intros [= <- <-] | by intros (_ & -> & -> & _)].
    + apply Z.ltb_ge in Hpos. split; [done | intros (_ & _ & -> & ?); lia].
Qed.

Lemma candidates_keys title page_links (adj : dict (list string)) :
  (omap (candidate title page_links) adj).*1 ⊆ adj.*1.
Proof.
  intros page ([p shared] & -> & ([k links] & Hin & Hc)%list_elem_of_omap)%list_elem_of_fmap.
  apply candidate_Some in Hc as (_ & -> & _). simpl.
  apply list_elem_of_fmap. by exists (k, links).
Qed.

Lemma candidates_NoDup title page_links (adj : dict (list string)) :
  NoDup adj.*1 → NoDup (omap (candidate title page_links) adj).*1.
Proof.
  induction adj as [|[k links] adj IH]; csimpl; [constructor |].
  intros [Hk Hadj]%NoDup_cons.
  destruct (candidate title page_links (k, links)) as [[page shared]|] eqn:Hc;
    csimpl; [|by apply IH].
  apply candidate_Some in Hc as (_ & -> & _). simpl.
  apply NoDup_cons. split; [|by apply IH].
  intros Hin%candidates_keys. done.
Qed.

(** C3, amended. For a title that has an entry and [top_n >= 0],
    [recommend_articles] reports candidates as the contract [recommend_spec]
    describes: each other title scored by the size of the intersection of the
    two out-link sets, zero scores left out, highest score first, at most
    [top_n] of them: all of them when no more than [top_n] qualify, the first
    [top_n] otherwise. The first hypothesis is the representation invariant
    of dictionaries. *)
Theorem recommend_articles_top_n (title : string) (top_n : Z) (w : world) :
  Dict.wf (adj_list (self w)) →
  Dict.contains title (adj_list (self w)) = true →
  0 ≤ top_n →
  recommend_spec title top_n w.
Proof.
  intros Hwf Hin Hn. unfold recommend_spec. simpl.
  unfold Dict.contains in Hin.
  destruct (Dict.get title (adj_list (self w))) as [links|] eqn:Hget; [|done].
  rewrite (recommended_eq _ _ _ _ Hget), slice_to_nonneg by done.
  set (sims := omap (candidate title (list_to_set links)) (adj_list (self w))).
  exists (Py.sort_reverse snd sims). split_and!.
  - intros page shared. rewrite sort_reverse_perm. unfold sims.
    rewrite list_elem_of_omap. split.
    + intros ([k l2] & Hk & (Hne & -> & -> & Hpos)%candidate_Some). simpl in *.
      split_and!; [|done| |done].
      * apply list_elem_of_fmap. by exists (k, l2).
      * unfold shared_count, Dict.get_default. rewrite Hget.
        apply dict_get_elem_of in Hk; [|done]. by rewrite Hk.
    + intros (([k l2] & -> & Hk)%list_elem_of_fmap & Hne & -> & Hpos).
      simpl in *. exists (k, l2). split; [done |].
      apply candidate_Some. simpl. split_and!; [done..| |].
      * unfold shared_count, Dict.get_default. rewrite Hget.
        apply dict_get_elem_of in Hk; [|done]. by rewrite Hk.
      * revert Hpos. unfold shared_count, Dict.get_default. rewrite Hget.
        apply dict_get_elem_of in Hk; [|done]. by rewrite Hk.
  - rewrite sort_reverse_perm. by apply candidates_NoDup.
  - apply sort_reverse_sorted.
  - apply prefix_take.
  - rewrite length_take. lia.
  - intros Hle. apply take_ge. lia.
  - intros Hle. rewrite length_take. lia.
Qed.

(** C3 as stated fails for a negative [top_n]: the slice
    [similarities[:top_n]] then drops items from the end, so that on the
    fixture [top_n = -1] reports one recommendation, more than [top_n]. The
    call itself returns [None], as in every branch of the method. *)
Lemma recommend_articles_negative_top_n :
  recommended "A" (-1) fixture = [("B", 2)]
  ∧ (recommend_articles "A" (-1) fixture).1 = Ok Py.None_
  ∧ ¬ recommend_spec "A" (-1) fixture.
Proof.
  split_and!; [reflexivity | reflexivity |].
  intros (ranked & _ & _ & _ & _ & Hlen & _). vm_compute in Hlen. by apply Hlen.
Qed.

(** ** The claims at concrete inputs *)

Lemma fixture_wf : Dict.wf (adj_list (self fixture)).
Proof. apply (bool_decide_unpack _). vm_compute. exact I. Defined.

(** The fixture of the specification: the loaded mapping, the
    recommendations for A, two degrees. *)
Example fixture_adjacency :
  adj_list (self fixture)
  = [("A", ["X"; "Y"; "Z"]); ("X", []); ("Y", []); ("Z", []);
     ("B", ["X"; "Y"]); ("C", ["X"]); ("D", ["W"]); ("W", [])].
Proof. reflexivity. Qed.

Example fixture_recommendations :
  recommended "A" 2 fixture = [("B", 2); ("C", 1)].
Proof. reflexivity. Qed.

Example fixture_degrees :
  get_out_degree (self fixture) "A" = 3 ∧ get_in_degree (self fixture) "X" = 3.
Proof. by split. Qed.

(** The search takes the shortcut, and finds nothing against the edges. *)
Example detour_shortest_path :
  (find_shortest_path "A" "D" detour).1
  = Ok (Py.List [Py.Str "A"; Py.Str "C"; Py.Str "D"])
  ∧ (find_shortest_path "D" "A" detour).1 = Ok Py.None_.
Proof. by split. Qed.

(** A line is stripped before it is split: a line that starts with a tab
    loses its empty first field. *)
Example fields_after_strip :
  fields (String tab (edge_line "1" "A" "2" "B")) = ["1"; "A"; "2"; "B"]
  ∧ fields (String tab (edge_line "A" "2" "B" "")) = ["A"; "2"; "B"].
Proof. by split. Qed.

Lemma find_shortest_path_optimal_witness :
  Dict.contains "A" (adj_list (self detour)) = true
  ∧ Dict.contains "D" (adj_list (self detour)) = true
  ∧ "A" ≠ "D"
  ∧ ((find_shortest_path "A" "D" detour).1 = Ok Py.None_
     ∨ ∃ path,
         (find_shortest_path "A" "D" detour).1 = Ok (Py.List (Py.Str <$> path))
         ∧ is_path (adj_list (self detour)) path
         ∧ head path = Some "A"
         ∧ last path = Some "D"
         ∧ ∀ q, path_from_to (adj_list (self detour)) "A" "D" q →
                steps path ≤ steps q).
Proof.
  split_and!; [reflexivity | reflexivity | discriminate |].
  apply find_shortest_path_optimal; [reflexivity | reflexivity | discriminate].
Defined.

Lemma recommend_articles_top_n_witness :
  Dict.wf (adj_list (self fixture))
  ∧ Dict.contains "A" (adj_list (self fixture)) = true
  ∧ 0 ≤ 2
  ∧ recommend_spec "A" 2 fixture.
Proof.
  split_and!; [apply fixture_wf | reflexivity | lia |].
  apply recommend_articles_top_n; [apply fixture_wf | reflexivity | lia].
Defined.

Lemma cache_round_trip_witness :
  Dict.wf (adj_list (self fixture))
  ∧ (let w1 := (cache_data "wikigraph_cache.json" fixture).2 in
     let r := load_cache "wikigraph_cache.json"
                {| self := self new_world; files := files w1;
                   stdout := stdout w1 |} in
     (cache_data "wikigraph_cache.json" fixture).1 = Ok ()
     ∧ r.1 = Ok true
     ∧ adj_list (self r.2) = adj_list (self fixture)).
Proof.
  split; [apply fixture_wf |].
  apply (cache_round_trip "wikigraph_cache.json" fixture (self new_world)).
  apply fixture_wf.
Defined.

(** A line of the fixture as it stands, and the edge it adds. *)
Lemma build_graph_from_file_reads_edge_list_witness :
  raw_fields (edge_line "1" "A" "5" "X")
  = ["1"; "A"; "5"; "X" +:+ String (ascii_of_nat 10) EmptyString]
  ∧ fields (edge_line "1" "A" "5" "X") = ["1"; "A"; "5"; "X"]
  ∧ Dict.get_default "A" []
      (loaded [header_line; edge_line "1" "A" "5" "X"] new_world)
    = ["X"]
  ∧ build_graph_from_file [] new_world = (Raise StopIteration, new_world).
Proof.
  pose proof (build_graph_from_file_reads_edge_list header_line
                [edge_line "1" "A" "5" "X"] new_world)
    as (Hempty & _ & _ & _ & _ & Hraw).
  specialize (Hraw [] (edge_line "1" "A" "5" "X") _ _ _ _ eq_refl eq_refl).
  destruct Hraw as (Hfields & Hlinks & _).
  split_and!; [reflexivity | exact Hfields | | exact Hempty].
  rewrite Hlinks. reflexivity.
Defined.

(** The same edge on two lines is stored twice. *)
Lemma build_graph_from_file_entries_witness :
  let g' := self (build_graph_from_file duplicate_file new_world).2 in
  get_connections g' "D" = ["W"; "W"]
  ∧ occurrences "W" (get_connections g' "D") = 2%nat
  ∧ Dict.contains "D" (adj_list g') = true
  ∧ Dict.contains "W" (adj_list g') = true.
Proof.
  pose proof (build_graph_from_file_entries header_line
                [edge_line "4" "D" "8" "W"; edge_line "4" "D" "8" "W"]
                new_world)
    as (_ & Hraw & Hlinks & Hocc).
  destruct (Hraw (edge_line "4" "D" "8" "W") _ _ _ _
              ltac:(by left) eq_refl eq_refl eq_refl)
    as (_ & Hfrom & Hto & _).
  split_and!; [| | exact Hfrom | exact Hto].
  - unfold duplicate_file. rewrite Hlinks. reflexivity.
  - unfold duplicate_file. rewrite Hocc. reflexivity.
Defined.

Lemma degrees_never_fail_witness :
  Dict.contains "Q" (adj_list (self fixture)) = false
  ∧ closed (adj_list (self fixture)) = true
  ∧ get_out_degree (self fixture) "Q" = 0
  ∧ get_in_degree (self fixture) "Q" = 0.
Proof.
  pose proof (degrees_never_fail "Q" fixture) as (_ & _ & _ & _ & H & _).
  split_and!; [reflexivity | reflexivity | |]; apply H; reflexivity.
Defined.

(** * Further properties *)

(** ** Start-up and the cache *)

Lemma init_run file_name w :
  init file_name w
  = match files w !! file_name with
    | Some members =>
        (Ok (),
         {| self := {| cache_file := file_name;
                       adj_list := Dict.of_items members;
                       start_page := None; end_page := None |};
            files := files w;
            stdout := stdout w ++ [GraphLoaded file_name] |})
    | None =>
        (Ok (),
         {| self := {| cache_file := file_name; adj_list := [];
                       start_page := None; end_page := None |};
            files := files w;
            stdout := stdout w ++ [NoCacheFound] |})
    end.
Proof.
  unfold init, mbind, M_bind, put_self, get_self. simpl.
  rewrite load_cache_run. simpl. by destruct (files w !! file_name).
Qed.

Lemma dict_setitem_not_nil {V} k (v : V) (d : dict V) : Dict.setitem k v d ≠ [].
Proof. destruct d as [|[k' v'] d]; simpl; [done |]. by case_decide. Qed.

Lemma dict_of_items_nil {V} (kvs : list (string * V)) :
  Dict.of_items kvs = [] ↔ kvs = [].
Proof.
  split; [|by intros ->].
  destruct kvs as [|[k v] kvs]; [done |]. unfold Dict.of_items. simpl.
  assert (∀ acc : dict V, acc ≠ [] →
            foldl (λ d kv, Dict.setitem kv.1 kv.2 d) acc kvs ≠ []) as Hne.
  { induction kvs as [|[k' v'] kvs IH]; intros acc Hacc; simpl; [done |].
    apply IH, dict_setitem_not_nil. }
  intros H. by apply Hne in H.
Qed.

Lemma dict_of_items_wf_any {V} (kvs : list (string * V)) :
  Dict.wf (Dict.of_items kvs).
Proof.
  unfold Dict.of_items.
  assert (∀ acc : dict V, Dict.wf acc →
            Dict.wf (foldl (λ d kv, Dict.setitem kv.1 kv.2 d) acc kvs)) as H.
  { induction kvs as [|[k v] kvs IH]; intros acc Hacc; simpl; [done |].
    by apply IH, dict_wf_setitem. }
  apply H. constructor.
Qed.

(** The graph that [build_graph_from_file] leaves behind is the graph a new
    object finds: creating an object with the same cache file afterwards
    loads the same mapping, with both session pointers unset. *)
Theorem build_then_init (file : list string) (w : world) :
  Dict.wf (adj_list (self w)) →
  file ≠ [] →
  let w1 := (build_graph_from_file file w).2 in
  let r := init (cache_file (self w)) w1 in
  r.1 = Ok ()
  ∧ adj_list (self r.2) = adj_list (self w1)
  ∧ cache_file (self r.2) = cache_file (self w)
  ∧ start_page (self r.2) = None
  ∧ end_page (self r.2) = None
  ∧ stdout r.2
    = stdout w ++ [GraphCached (cache_file (self w));
                   GraphLoaded (cache_file (self w))].
Proof.
  intros Hwf Hfile w1 r. subst w1 r.
  destruct file as [|header lines]; [done |].
  rewrite build_graph_from_file_run. simpl. rewrite init_run. simpl.
  rewrite lookup_insert_eq. simpl. split_and!; try done.
  - by apply dict_of_items_wf, process_lines_wf.
  - by rewrite <- app_assoc.
Qed.

(** What [main] does before it starts the explorer. *)
Lemma main_setup_run csv w :
  main_setup csv w
  = let w1 := (init "wikigraph_cache.json" w).2 in
    match adj_list (self w1) with
    | [] => build_graph_from_file csv w1
    | _ :: _ => (Ok (), w1)
    end.
Proof.
  unfold main_setup, mbind at 1, M_bind at 1.
  rewrite init_run. destruct (files w !! "wikigraph_cache.json") as [members|];
    simpl; [|done].
  unfold mbind, M_bind, get_self. simpl. by destruct (Dict.of_items members).
Qed.

(** A cache that holds at least one page makes [main] skip the edge list:
    whatever the edge-list file contains, even nothing, the graph is the
    cached one. *)
Theorem main_setup_prefers_cache (csv : list string) (w : world)
    (members : json) :
  files w !! "wikigraph_cache.json" = Some members →
  members ≠ [] →
  main_setup csv w
  = (Ok (),
     {| self := {| cache_file := "wikigraph_cache.json";
                   adj_list := Dict.of_items members;
                   start_page := None; end_page := None |};
        files := files w;
        stdout := stdout w ++ [GraphLoaded "wikigraph_cache.json"] |}).
Proof.
  intros Hfile Hne. rewrite main_setup_run, init_run, Hfile. simpl.
  destruct (Dict.of_items members) eqn:Hd; [|done].
  destruct Hne. by apply (dict_of_items_nil members).
Qed.

(** Without a cache, or with a cache that holds no page, [main] reads the
    edge list into an empty graph; an empty edge-list file then makes it
    raise [StopIteration]. *)
Theorem main_setup_reads_edge_list (csv : list string) (w : world) :
  files w !! "wikigraph_cache.json" = None
  ∨ files w !! "wikigraph_cache.json" = Some [] →
  let w1 := (init "wikigraph_cache.json" w).2 in
  adj_list (self w1) = []
  ∧ main_setup csv w = build_graph_from_file csv w1
  ∧ ((main_setup csv w).1 = Raise StopIteration ↔ csv = [])
  ∧ ∀ title,
      get_connections (self (main_setup csv w).2) title = targets title (tail csv).
Proof.
  intros Hfile w1. subst w1. rewrite main_setup_run, init_run.
  destruct Hfile as [-> | ->]; simpl.
  all: split_and!; [done | done | |].
  all: destruct csv as [|header lines]; try done.
  all: try (intros title; rewrite build_graph_from_file_run; simpl;
            unfold get_connections; simpl; by rewrite process_lines_links).
  all: rewrite build_graph_from_file_run; simpl; split; done.
Qed.

(** Once [main] has ended with a graph that holds a page, a later start
    finds that graph again, whatever the edge-list file has become. *)
Theorem main_setup_twice (csv1 csv2 : list string) (w : world) :
  let r1 := main_setup csv1 w in
  r1.1 = Ok () →
  adj_list (self r1.2) ≠ [] →
  (main_setup csv2 r1.2).1 = Ok ()
  ∧ adj_list (self (main_setup csv2 r1.2).2) = adj_list (self r1.2).
Proof.
  intros r1 Hok Hne. subst r1. revert Hok Hne.
  rewrite (main_setup_run csv1), (init_run _ w).
  destruct (files w !! "wikigraph_cache.json") as [members|] eqn:Hfile; simpl.
  - destruct (Dict.of_items members) as [|item d] eqn:Hd.
    + apply dict_of_items_nil in Hd as ->.
      destruct csv1 as [|header lines]; [done |].
      rewrite build_graph_from_file_run. simpl. intros _ Hne.
      rewrite main_setup_run, init_run. simpl. rewrite lookup_insert_eq. simpl.
      rewrite dict_of_items_wf by (apply process_lines_wf; constructor).
      by destruct (foldl _ _ _).
    + intros _ _. rewrite main_setup_run, init_run. simpl. rewrite Hfile. simpl.
      by rewrite Hd.
  - destruct csv1 as [|header lines]; [done |].
    rewrite build_graph_from_file_run. simpl. intros _ Hne.
    rewrite main_setup_run, init_run. simpl. rewrite lookup_insert_eq. simpl.
    rewrite dict_of_items_wf by (apply process_lines_wf; constructor).
    by destruct (foldl _ _ _).
Qed.

(** ** Ingestion: what it keeps *)

Lemma closed_edge (adj : dict (list string)) a b :
  closed adj = true → edge adj a b → Dict.contains b adj = true.
Proof.
  intros Hcl Hab. unfold edge, Dict.get_default in Hab.
  destruct (Dict.get a adj) as [links|] eqn:Hget; [|by apply elem_of_nil in Hab].
  apply dict_get_Some_elem_of in Hget.
  by apply (proj1 (closed_spec adj) Hcl a links).
Qed.

(** If every out-link of the graph leads to a page with an entry, this is
    still so after [build_graph_from_file], whatever the file holds. *)
Theorem build_graph_from_file_keeps_closed (file : list string) (w : world) :
  closed (adj_list (self w)) = true →
  let g' := self (build_graph_from_file file w).2 in
  ∀ a b, b ∈ get_connections g' a → Dict.contains b (adj_list g') = true.
Proof.
  intros Hcl g' a b Hab. apply closed_edge with a; [|done].
  by apply (build_graph_from_file_closed file w).
Qed.

Lemma process_line_keys_prefix line (adj : dict (list string)) :
  Dict.keys adj `prefix_of` Dict.keys (process_line line adj).
Proof.
  assert (∀ k (v : list string) d,
            Dict.keys d `prefix_of` Dict.keys (Dict.setitem k v d)) as Hset.
  { intros k v d. rewrite dict_keys_setitem.
    destruct (Dict.contains k d); [done | by apply prefix_app_r]. }
  assert (∀ k (d : dict (list string)),
            Dict.keys d `prefix_of`
              Dict.keys (if Dict.contains k d then d else Dict.setitem k [] d))
    as Hens.
  { intros k d. destruct (Dict.contains k d); [done | apply Hset]. }
  unfold process_line. simpl.
  destruct (fields line) as [|a [|f [|c [|t [|x l]]]]]; try done.
  etrans; [apply (Hens f) |]. etrans; [apply (Hens t) |]. apply Hset.
Qed.

Lemma build_graph_from_file_keys_prefix (file : list string) (w : world) :
  Dict.keys (adj_list (self w))
  `prefix_of` Dict.keys (adj_list (self (build_graph_from_file file w).2)).
Proof.
  destruct file as [|header lines]; [done |].
  rewrite build_graph_from_file_run. simpl.
  generalize (adj_list (self w)).
  induction lines as [|line lines IH]; intros adj; simpl; [done |].
  etrans; [apply (process_line_keys_prefix line) | apply IH].
Qed.

Lemma build_graph_from_file_links_prefix (file : list string) (w : world) title :
  get_connections (self w) title
  `prefix_of` get_connections (self (build_graph_from_file file w).2) title.
Proof.
  destruct file as [|header lines]; [done |].
  rewrite build_graph_from_file_run. unfold get_connections. simpl.
  rewrite process_lines_links. by apply prefix_app_r.
Qed.

(** Ingestion only appends: the pages that were there keep their place in
    the mapping, new pages come after them, and the out-links a page had are
    the first of the out-links it has afterwards. *)
Theorem build_graph_from_file_appends (file : list string) (w : world) :
  let g' := self (build_graph_from_file file w).2 in
  Dict.keys (adj_list (self w)) `prefix_of` Dict.keys (adj_list g')
  ∧ ∀ title,
      get_connections (self w) title `prefix_of` get_connections g' title.
Proof.
  intros g'. split.
  - apply build_graph_from_file_keys_prefix.
  - intros title. apply build_graph_from_file_links_prefix.
Qed.




(** ** Degrees *)

Lemma in_degree_loop_filter title (items : dict (list string)) n :
  in_degree_loop title items n
  = n + Z.of_nat (length (filter (λ item : string * list string,
                                    title ∈ item.2) items)).
Proof.
  revert n. induction items as [|[a links] items IH]; intros n; [simpl; lia |].
  cbn [in_degree_loop]. rewrite IH, filter_cons. cbn [snd].
  destruct (decide (title ∈ links));
    [rewrite length_cons, Nat2Z.inj_succ; lia | lia].
Qed.

Lemma filter_length_keys {V} (P : string * V → Prop) (Q : string → Prop)
    `{!∀ x, Decision (P x)} `{!∀ k, Decision (Q k)} (l : dict V) :
  (∀ item, item ∈ l → P item ↔ Q item.1) →
  length (filter P l) = length (filter Q l.*1).
Proof.
  induction l as [|item l IH]; intros HPQ; csimpl; [done |].
  rewrite !filter_cons.
  assert (length (filter P l) = length (filter Q l.*1)) as Hl.
  { apply IH. intros ? ?. apply HPQ. by right. }
  destruct (decide (P item)) as [HP|HP], (decide (Q item.1)) as [HQ|HQ];
    simpl; try lia.
  - destruct HQ. apply HPQ; [by left | done].
  - destruct HP. apply HPQ; [by left | done].
Qed.

Lemma length_pos_elem {A} (l : list A) :
  0 < Z.of_nat (length l) ↔ ∃ a, a ∈ l.
Proof.
  destruct l as [|a l]; simpl.
  - split; [lia | by intros [? ?%elem_of_nil]].
  - split; [intros _; exists a; by left | lia].
Qed.

Lemma dict_get_default_item (adj : dict (list string)) a links :
  Dict.wf adj → (a, links) ∈ adj → Dict.get_default a [] adj = links.
Proof.
  intros Hwf Hin. unfold Dict.get_default.
  by rewrite (proj1 (dict_get_elem_of a links adj Hwf) Hin).
Qed.

Lemma in_degree_filter_keys (g : WikipediaGraph) (title : string) :
  Dict.wf (adj_list g) →
  get_in_degree g title
  = Z.of_nat (length (filter (λ a, title ∈ get_connections g a)
                        (Dict.keys (adj_list g)))).
Proof.
  intros Hwf. unfold get_in_degree. rewrite in_degree_loop_filter.
  rewrite (filter_length_keys _ (λ a, title ∈ get_connections g a)); last first.
  { intros [a links] Hin. simpl. unfold get_connections.
    by rewrite (dict_get_default_item _ _ _ Hwf Hin). }
  by rewrite Z.add_0_l.
Qed.

(** The in-degree of a title is the number of pages whose out-links contain
    it, each page counted once however often it links to the title: it is at
    most the number of pages, and it is positive exactly when some page links
    to the title. The hypothesis is the representation invariant of
    dictionaries. *)
Theorem in_degree_counts_pages (g : WikipediaGraph) (title : string) :
  Dict.wf (adj_list g) →
  get_in_degree g title
  = Z.of_nat (length (filter (λ a, title ∈ get_connections g a)
                        (Dict.keys (adj_list g))))
  ∧ 0 ≤ get_in_degree g title ≤ Z.of_nat (length (adj_list g))
  ∧ (0 < get_in_degree g title ↔ ∃ a, edge (adj_list g) a title).
Proof.
  intros Hwf. rewrite (in_degree_filter_keys g title Hwf).
  split_and!; [done | lia | |].
  - pose proof (length_filter (λ a, title ∈ get_connections g a)
                  (Dict.keys (adj_list g))) as Hle.
    unfold Dict.keys in *. rewrite length_fmap in Hle. lia.
  - rewrite length_pos_elem. setoid_rewrite list_elem_of_filter. split.
    + intros (a & Ha & _). by exists a.
    + intros [a Ha]. exists a. split; [done |].
      apply dict_contains_keys. unfold Dict.contains.
      unfold edge, Dict.get_default in Ha.
      destruct (Dict.get a (adj_list g)); [done | by apply elem_of_nil in Ha].
Qed.

Lemma elem_of_targets title a lines :
  title ∈ targets a lines
  ↔ ∃ line, line ∈ lines ∧ record_of line = Some (a, title).
Proof.
  unfold targets. rewrite list_elem_of_omap. split.
  - intros (line & Hin & Hr). exists line. split; [done |].
    destruct (record_of line) as [[f t]|]; [|done].
    case_decide; by simplify_eq.
  - intros (line & Hin & Hr). exists line. split; [done |].
    rewrite Hr. by rewrite decide_True.
Qed.

Lemma elem_of_sources title a lines :
  a ∈ sources title lines
  ↔ ∃ line, line ∈ lines ∧ record_of line = Some (a, title).
Proof.
  unfold sources. rewrite list_elem_of_omap. split.
  - intros (line & Hin & Hr). exists line. split; [done |].
    destruct (record_of line) as [[f t]|]; [|done].
    case_decide; by simplify_eq.
  - intros (line & Hin & Hr). exists line. split; [done |].
    rewrite Hr. by rewrite decide_True.
Qed.

(** The degrees of a graph read from an edge list into an empty object: the
    out-degree of a title is the number of its records, a repeated edge
    counted each time; its in-degree is the number of different titles that
    have a record leading to it, a repeated edge counted once. *)
Theorem degrees_of_loaded_graph (header : string) (lines : list string)
    (title : string) (w : world) :
  adj_list (self w) = [] →
  let g' := self (build_graph_from_file (header :: lines) w).2 in
  get_out_degree g' title = Z.of_nat (length (targets title lines))
  ∧ get_in_degree g' title
    = Z.of_nat (size (list_to_set (sources title lines) : gset string)).
Proof.
  intros Hnew g'.
  assert (∀ a, get_connections g' a = targets a lines) as Hlinks.
  { intros a. subst g'. rewrite build_graph_from_file_run.
    unfold get_connections. simpl. by rewrite process_lines_links, Hnew. }
  assert (Dict.wf (adj_list g')) as Hwf.
  { apply (build_graph_from_file_wf (header :: lines) w). rewrite Hnew.
    constructor. }
  split; [unfold get_out_degree; by rewrite Hlinks |].
  rewrite (in_degree_filter_keys g' title Hwf).
  f_equal. rewrite <- (size_list_to_set (C:=gset string))
    by (apply NoDup_filter, Hwf).
  f_equal. apply set_eq. intros a.
  rewrite !elem_of_list_to_set, list_elem_of_filter, Hlinks.
  rewrite elem_of_targets, elem_of_sources. split; [by intros [? _] |].
  intros (line & Hin & Hr). split; [eauto |].
  apply dict_contains_keys. subst g'. rewrite build_graph_from_file_run. simpl.
  apply process_lines_contains. right. exists line, a, title. eauto.
Qed.

(** ** Shortest path: further properties *)

#[global] Instance Py_Str_inj : Inj (=) (=) Py.Str.
Proof. by intros s1 s2 [= ->]. Qed.

Lemma py_strs_fmap (p : list string) : Py.strs (Py.Str <$> p) = Some p.
Proof. induction p as [|a p IH]; csimpl; [done |]. by rewrite IH. Qed.

Lemma py_truthy_path (p : list string) :
  p ≠ [] → Py.truthy (Py.List (Py.Str <$> p)) = true.
Proof. by destruct p. Qed.

(** What [print_shortest_path] does with the value of [find_shortest_path]. *)
Lemma print_shortest_path_run s e w :
  print_shortest_path s e w
  = let r := find_shortest_path s e w in
    let out lines :=
      {| self := self r.2; files := files r.2; stdout := stdout r.2 ++ lines |} in
    match r.1 with
    | Raise x => (Raise x, r.2)
    | Ok path =>
        if Py.truthy path then
          match Py.len path with
          | Some n =>
              match Py.join_items path with
              | Some titles =>
                  (Ok (), out [ShortestPathSteps (n - 1); PathLine titles])
              | None => (Raise TypeError, out [ShortestPathSteps (n - 1)])
              end
          | None => (Raise TypeError, r.2)
          end
        else (Ok (), out [NoPathFound])
    end.
Proof.
  unfold print_shortest_path, mbind at 1, M_bind at 1.
  destruct (find_shortest_path s e w) as [[path|x] w']; simpl; [|done].
  destruct (Py.truthy path); [|done].
  destruct (Py.len path); [|done].
  unfold mbind, M_bind, print. simpl.
  destruct (Py.join_items path); [|done]. simpl. by rewrite <- app_assoc.
Qed.

(** Asked for the path from a page to itself, [print_shortest_path] never
    prints a path: for every title that has an entry it announces one step
    and then raises [TypeError]; the session pointers are set all the same. *)
Theorem print_shortest_path_same_page (s : string) (w : world) :
  Dict.contains s (adj_list (self w)) = true →
  print_shortest_path s s w
  = (Raise TypeError,
     {| self := {| cache_file := cache_file (self w);
                   adj_list := adj_list (self w);
                   start_page := Some s; end_page := Some s |};
        files := files w;
        stdout := stdout w ++ [ShortestPathSteps 1] |}).
Proof.
  intros Hs. rewrite print_shortest_path_run.
  pose proof (find_shortest_path_same_page s w Hs) as Hr.
  rewrite find_shortest_path_run in *. simpl in *. rewrite Hr. done.
Qed.

Lemma path_from_to_length adj s e p :
  path_from_to adj s e p → s ≠ e → (2 ≤ length p)%nat.
Proof.
  intros (Hp & Hh & Hl) Hne. destruct p as [|a [|b p]]; simpl in *; [done | | lia].
  congruence.
Qed.

(** In every other case [print_shortest_path] ends normally: it prints that
    there is no path exactly when [find_shortest_path] returns [None], and
    otherwise the step count, which is at least 1, followed by the path. *)
Theorem print_shortest_path_reports (s e : string) (w : world) :
  Dict.contains s (adj_list (self w)) = false ∨ s ≠ e →
  let r := find_shortest_path s e w in
  ∃ lines,
    print_shortest_path s e w
    = (Ok (), {| self := self r.2; files := files w;
                 stdout := stdout w ++ lines |})
    ∧ (r.1 = Ok Py.None_ ∧ lines = [NoPathFound]
       ∨ ∃ p, r.1 = Ok (Py.List (Py.Str <$> p))
              ∧ lines = [ShortestPathSteps (steps p); PathLine p]
              ∧ 1 ≤ steps p).
Proof.
  intros Hcase r.
  assert (files r.2 = files w ∧ stdout r.2 = stdout w) as [Hfiles Hout].
  { subst r. by rewrite find_shortest_path_run. }
  rewrite print_shortest_path_run. fold r. simpl.
  assert (r.1 = Ok Py.None_
          ∨ ∃ p, r.1 = Ok (Py.List (Py.Str <$> p)) ∧ (2 ≤ length p)%nat) as Hr.
  { subst r.
    destruct (Dict.contains s (adj_list (self w))) eqn:Hs; last first.
    { left. rewrite find_shortest_path_run. simpl. by rewrite Hs. }
    destruct (Dict.contains e (adj_list (self w))) eqn:He; last first.
    { left. rewrite find_shortest_path_run. simpl. by rewrite Hs, He. }
    destruct Hcase as [?|Hne]; [done |].
    destruct (find_shortest_path_search s e w Hs He Hne) as ([p|] & -> & Hp);
      [right | by left].
    exists p. split; [done |].
    apply (path_from_to_length (adj_list (self w)) s e p); [apply Hp | done]. }
  destruct Hr as [-> | (p & -> & Hlen)].
  - exists [NoPathFound]. simpl. rewrite Hfiles, Hout. split; [done | by left].
  - exists [ShortestPathSteps (steps p); PathLine p].
    rewrite py_truthy_path by (intros ->; simpl in Hlen; lia).
    cbn [Py.len Py.join_items].
    rewrite py_strs_fmap, length_fmap, Hfiles, Hout.
    split; [done |]. right. exists p. split_and!; [done.. |].
    unfold steps. lia.
Qed.

(** A page that links to another page directly is one step away from it. *)
Theorem find_shortest_path_direct_link (s e : string) (w : world) :
  e ∈ get_connections (self w) s →
  Dict.contains e (adj_list (self w)) = true →
  s ≠ e →
  (find_shortest_path s e w).1 = Ok (Py.List [Py.Str s; Py.Str e]).
Proof.
  intros Hlink He Hne.
  assert (Dict.contains s (adj_list (self w)) = true) as Hs.
  { unfold get_connections, Dict.get_default, Dict.contains in *.
    destruct (Dict.get s (adj_list (self w))); [done | by apply elem_of_nil in Hlink]. }
  assert (path_from_to (adj_list (self w)) s e [s; e]) as Hdirect.
  { by split_and!. }
  destruct (find_shortest_path_search s e w Hs He Hne) as ([p|] & -> & Hp);
    [|by destruct (Hp _ Hdirect)].
  destruct Hp as [Hpath Hmin]. specialize (Hmin _ Hdirect).
  pose proof (path_from_to_length _ _ _ _ Hpath Hne) as Hlen.
  destruct Hpath as (_ & Hh & Hl).
  destruct p as [|a [|b [|c p]]]; simpl in *; try lia. by simplify_eq.
Qed.

Section path_surgery.
Context (adj : dict (list string)).
Implicit Types (p q l : list string) (s e x : string).

Lemma is_path_cons_cons a b l :
  is_path adj (a :: b :: l) ↔ edge adj a b ∧ is_path adj (b :: l).
Proof. done. Qed.

Lemma is_path_app_inv l1 x l2 :
  is_path adj (l1 ++ x :: l2) → is_path adj (l1 ++ [x]) ∧ is_path adj (x :: l2).
Proof.
  induction l1 as [|a l1 IH]; [done |].
  destruct l1 as [|b l1].
  - change (is_path adj ([a] ++ x :: l2)) with (is_path adj (a :: x :: l2)).
    rewrite is_path_cons_cons. intros [? ?]. by split.
  - change (is_path adj ((a :: b :: l1) ++ x :: l2))
      with (is_path adj (a :: b :: (l1 ++ x :: l2))).
    change (is_path adj ((a :: b :: l1) ++ [x]))
      with (is_path adj (a :: b :: (l1 ++ [x]))).
    rewrite !is_path_cons_cons. intros [? [? ?]%IH]. by split.
Qed.

Lemma is_path_app l1 x l2 :
  is_path adj (l1 ++ [x]) → is_path adj (x :: l2) → is_path adj (l1 ++ x :: l2).
Proof.
  induction l1 as [|a l1 IH]; [done |].
  destruct l1 as [|b l1].
  - change (is_path adj ([a] ++ x :: l2)) with (is_path adj (a :: x :: l2)).
    change (is_path adj ([a] ++ [x])) with (is_path adj (a :: x :: [])).
    rewrite !is_path_cons_cons. intros [? _] ?. by split.
  - change (is_path adj ((a :: b :: l1) ++ x :: l2))
      with (is_path adj (a :: b :: (l1 ++ x :: l2))).
    change (is_path adj ((a :: b :: l1) ++ [x]))
      with (is_path adj (a :: b :: (l1 ++ [x]))).
    rewrite !is_path_cons_cons. intros [? ?] ?. split; [done |]. by apply IH.
Qed.

Lemma not_NoDup_split l :
  ¬ NoDup l → ∃ x l1 l2 l3, l = l1 ++ x :: l2 ++ x :: l3.
Proof.
  induction l as [|a l IH]; [intros []; constructor |].
  intros Hdup. destruct (decide (a ∈ l)) as [Hin|Hnin].
  - apply list_elem_of_split in Hin as (l2 & l3 & ->). by exists a, [], l2, l3.
  - destruct IH as (x & l1 & l2 & l3 & ->).
    { intros Hnd. apply Hdup. by apply NoDup_cons. }
    by exists x, (a :: l1), l2, l3.
Qed.

(** A path that visits a title twice can be cut short. *)
Lemma path_shortcut s e l1 x l2 l3 :
  path_from_to adj s e (l1 ++ x :: l2 ++ x :: l3) →
  path_from_to adj s e (l1 ++ x :: l3).
Proof.
  intros (Hp & Hh & Hl). split_and!.
  - apply is_path_app_inv in Hp as [H1 H2].
    change (x :: l2 ++ x :: l3) with ((x :: l2) ++ x :: l3) in H2.
    apply is_path_app_inv in H2 as [_ H3]. by apply is_path_app.
  - by destruct l1.
  - rewrite last_app_cons in *.
    change (x :: l2 ++ x :: l3) with ((x :: l2) ++ x :: l3) in Hl.
    by rewrite last_app_cons in Hl.
Qed.

Lemma shortest_path_NoDup s e p :
  path_from_to adj s e p →
  (∀ q, path_from_to adj s e q → (length p ≤ length q)%nat) →
  NoDup p.
Proof.
  intros Hp Hmin. destruct (decide (NoDup p)) as [|Hdup]; [done |].
  apply not_NoDup_split in Hdup as (x & l1 & l2 & l3 & ->).
  specialize (Hmin _ (path_shortcut _ _ _ _ _ _ Hp)).
  rewrite !length_app in Hmin. simpl in Hmin. rewrite length_app in Hmin.
  simpl in Hmin. lia.
Qed.

Lemma path_titles_present s e p :
  path_from_to adj s e p →
  Dict.contains e adj = true →
  ∀ t, t ∈ p → Dict.contains t adj = true.
Proof.
  intros (Hp & _ & Hl) He. clear s.
  induction p as [|a p IH]; [done |].
  destruct p as [|b p].
  - simpl in Hl. injection Hl as ->. by intros t ->%list_elem_of_singleton.
  - apply is_path_cons_cons in Hp as [Hab Hp].
    intros t [Ht|Ht]%elem_of_cons; [subst t | by apply IH].
    unfold edge, Dict.get_default, Dict.contains in *.
    destruct (Dict.get a adj); [done | by apply elem_of_nil in Hab].
Qed.
End path_surgery.

(** Reading a path result: the call was a search between two different
    pages that have an entry. *)
Lemma find_shortest_path_Some_inv s e p w :
  (find_shortest_path s e w).1 = Ok (Py.List (Py.Str <$> p)) →
  Dict.contains s (adj_list (self w)) = true
  ∧ Dict.contains e (adj_list (self w)) = true
  ∧ s ≠ e
  ∧ path_from_to (adj_list (self w)) s e p
  ∧ ∀ q, path_from_to (adj_list (self w)) s e q → (length p ≤ length q)%nat.
Proof.
  intros Hr.
  destruct (Dict.contains s (adj_list (self w))) eqn:Hs; last first.
  { rewrite find_shortest_path_run in Hr. simpl in Hr. by rewrite Hs in Hr. }
  destruct (Dict.contains e (adj_list (self w))) eqn:He; last first.
  { rewrite find_shortest_path_run in Hr. simpl in Hr. by rewrite Hs, He in Hr. }
  destruct (decide (s = e)) as [->|Hne].
  { rewrite find_shortest_path_same_page in Hr by done.
    destruct p as [|a [|b p]]; by simplify_eq/=. }
  destruct (find_shortest_path_search s e w Hs He Hne) as ([p'|] & Hr' & Hp);
    rewrite Hr' in Hr; [|done].
  injection Hr as Hr. apply (inj (fmap Py.Str)) in Hr as ->.
  split_and!; [done | done | done | apply Hp | apply Hp].
Qed.

(** A path that [find_shortest_path] returns visits no page twice and only
    pages that have an entry, so it has fewer steps than the graph has
    pages. *)
Theorem find_shortest_path_simple (s e : string) (p : list string) (w : world) :
  (find_shortest_path s e w).1 = Ok (Py.List (Py.Str <$> p)) →
  NoDup p
  ∧ (∀ t, t ∈ p → Dict.contains t (adj_list (self w)) = true)
  ∧ steps p < Z.of_nat (length (adj_list (self w))).
Proof.
  intros (Hs & He & Hne & Hp & Hmin)%find_shortest_path_Some_inv.
  assert (NoDup p) as Hnd by by eapply shortest_path_NoDup.
  assert (∀ t, t ∈ p → Dict.contains t (adj_list (self w)) = true) as Hin
    by by eapply path_titles_present.
  split_and!; [done.. |].
  assert (p ⊆+ Dict.keys (adj_list (self w))) as Hsub.
  { apply NoDup_submseteq; [done |]. intros t Ht. by apply dict_contains_keys, Hin. }
  apply submseteq_length in Hsub. unfold Dict.keys in Hsub.
  rewrite length_fmap in Hsub.
  pose proof (path_from_to_length _ _ _ _ Hp Hne). unfold steps. lia.
Qed.

Lemma is_path_mono (adj adj' : dict (list string)) p :
  (∀ a b, edge adj a b → edge adj' a b) → is_path adj p → is_path adj' p.
Proof.
  intros Hsub. induction p as [|a p IH]; [done |].
  destruct p as [|b p]; [done |].
  rewrite !is_path_cons_cons. intros [? ?]. split; [by apply Hsub | by apply IH].
Qed.

(** Reading more edges never loses a path: if [find_shortest_path] returned
    a path, then after [build_graph_from_file] on whatever file it returns a
    path again, with no more steps. *)
Theorem find_shortest_path_after_loading (file : list string) (s e : string)
    (p : list string) (w : world) :
  (find_shortest_path s e w).1 = Ok (Py.List (Py.Str <$> p)) →
  let w1 := (build_graph_from_file file w).2 in
  ∃ p', (find_shortest_path s e w1).1 = Ok (Py.List (Py.Str <$> p'))
        ∧ steps p' ≤ steps p.
Proof.
  intros (Hs & He & Hne & Hp & _)%find_shortest_path_Some_inv w1.
  assert (∀ x, Dict.contains x (adj_list (self w)) = true →
               Dict.contains x (adj_list (self w1)) = true) as Hcontains.
  { intros x Hx. subst w1. destruct file as [|header lines]; [done |].
    rewrite build_graph_from_file_run. simpl.
    apply process_lines_contains. by left. }
  assert (path_from_to (adj_list (self w1)) s e p) as Hp1.
  { destruct Hp as (Hpath & Hh & Hl). split_and!; [|done..].
    eapply is_path_mono; [|done]. intros a b Hab. unfold edge in *.
    destruct (build_graph_from_file_links_prefix file w a) as [k Hk].
    unfold get_connections in Hk. fold w1 in Hk.
    rewrite Hk. apply elem_of_app. by left. }
  destruct (find_shortest_path_search s e w1 (Hcontains _ Hs) (Hcontains _ He) Hne)
    as ([p'|] & Hr & Hp'); [|by destruct (Hp' _ Hp1)].
  exists p'. split; [done |]. destruct Hp' as [_ Hmin].
  specialize (Hmin _ Hp1). unfold steps. lia.
Qed.

(** ** Recommendations: further properties *)

Lemma elem_of_candidates (adj : dict (list string)) title links page shared :
  Dict.wf adj →
  Dict.get title adj = Some links →
  (page, shared) ∈ omap (candidate title (list_to_set links)) adj
  ↔ page ∈ Dict.keys adj ∧ page ≠ title
    ∧ shared = shared_count adj title page ∧ 0 < shared.
Proof.
  intros Hwf Hget. rewrite list_elem_of_omap.
  assert (∀ k l2, (k, l2) ∈ adj →
            shared_count adj title k
            = Z.of_nat (size ((list_to_set links : gset string) ∩ list_to_set l2)))
    as Hcount.
  { intros k l2 Hk. unfold shared_count.
    rewrite (dict_get_default_item _ _ _ Hwf Hk).
    unfold Dict.get_default. by rewrite Hget. }
  split.
  - intros ([k l2] & Hk & (Hne & -> & -> & Hpos)%candidate_Some). simpl in *.
    split_and!; [|done | by rewrite (Hcount k l2) | done].
    apply list_elem_of_fmap. by exists (k, l2).
  - intros (([k l2] & -> & Hk)%list_elem_of_fmap & Hne & -> & Hpos).
    simpl in *. exists (k, l2). split; [done |].
    apply candidate_Some. simpl. rewrite <- (Hcount k l2) by done. done.
Qed.

Lemma recommended_absent title top_n w :
  Dict.get title (adj_list (self w)) = None → recommended title top_n w = [].
Proof.
  intros Hget. unfold recommended.
  rewrite recommend_articles_run, Hget. simpl. by rewrite drop_app_length.
Qed.

Lemma candidates_length title page_links (adj : dict (list string)) :
  (length (omap (candidate title page_links) adj) ≤ length adj)%nat.
Proof.
  induction adj as [|item adj IH]; csimpl; [done |].
  destruct (candidate title page_links item); simpl; lia.
Qed.

(** With [top_n] at least the number of pages, everything that qualifies is
    reported. *)
Lemma recommended_all title top_n w page shared :
  Dict.wf (adj_list (self w)) →
  Z.of_nat (length (adj_list (self w))) ≤ top_n →
  (page, shared) ∈ recommended title top_n w
  ↔ Dict.contains title (adj_list (self w)) = true
    ∧ page ∈ Dict.keys (adj_list (self w)) ∧ page ≠ title
    ∧ shared = shared_count (adj_list (self w)) title page ∧ 0 < shared.
Proof.
  intros Hwf Hn. unfold Dict.contains.
  destruct (Dict.get title (adj_list (self w))) as [links|] eqn:Hget.
  - rewrite (recommended_eq _ _ _ _ Hget), slice_to_nonneg by lia.
    rewrite take_ge; last first.
    { rewrite (Permutation_length (sort_reverse_perm _ _)).
      pose proof (candidates_length title (list_to_set links) (adj_list (self w))).
      lia. }
    rewrite sort_reverse_perm, (elem_of_candidates _ _ _ _ _ Hwf Hget).
    split; [by intros ? | by intros [_ ?]].
  - rewrite recommended_absent by done. split; [by intros ?%elem_of_nil | by intros [? _]].
Qed.

Lemma shared_count_comm adj a b : shared_count adj a b = shared_count adj b a.
Proof. unfold shared_count. f_equal. f_equal. set_solver. Qed.

(** Recommendation is mutual: when everything that qualifies is reported
    ([top_n] at least the number of pages), a page is recommended for
    another with some score exactly when the other is recommended for it,
    with the same score. *)
Theorem recommendations_mutual (a b : string) (shared top_n : Z) (w : world) :
  Dict.wf (adj_list (self w)) →
  Z.of_nat (length (adj_list (self w))) ≤ top_n →
  (b, shared) ∈ recommended a top_n w ↔ (a, shared) ∈ recommended b top_n w.
Proof.
  intros Hwf Hn. rewrite !recommended_all by done.
  rewrite (shared_count_comm _ b a), <- !dict_contains_keys.
  split; intros (? & ? & ? & ? & ?); by split_and!.
Qed.

(** A negative [top_n] does not report nothing: it reports the whole
    ranking but its last [-top_n] entries. *)
Theorem recommended_negative_top_n (title : string) (top_n : Z) (w : world) :
  top_n < 0 →
  let ranking := recommended title (Z.of_nat (length (adj_list (self w)))) w in
  recommended title top_n w
  = take (length ranking - Z.to_nat (- top_n)) ranking.
Proof.
  intros Hneg ranking. subst ranking.
  destruct (Dict.get title (adj_list (self w))) as [links|] eqn:Hget; last first.
  { rewrite !recommended_absent by done. by rewrite take_nil. }
  rewrite !(recommended_eq _ _ _ _ Hget).
  rewrite (slice_to_nonneg (Z.of_nat _)) by lia.
  set (sorted := Py.sort_reverse snd _).
  assert (length sorted ≤ length (adj_list (self w)))%nat as Hlen.
  { unfold sorted. rewrite (Permutation_length (sort_reverse_perm _ _)).
    apply candidates_length. }
  rewrite (take_ge sorted) by lia. unfold Py.slice_to.
  rewrite (proj2 (Z.leb_gt 0 top_n)) by lia. f_equal. lia.
Qed.

(** For a title that has an entry, "no recommendations" is printed exactly
    when no other page shares an out-link with it, whatever [top_n] is; a
    page without out-links is such a title. *)
Theorem recommend_articles_no_recommendations (title : string) (top_n : Z)
    (w : world) :
  Dict.wf (adj_list (self w)) →
  Dict.contains title (adj_list (self w)) = true →
  (stdout (recommend_articles title top_n w).2
   = stdout w ++ [NoRecommendations title]
   ↔ ∀ page, page ∈ Dict.keys (adj_list (self w)) → page ≠ title →
             shared_count (adj_list (self w)) title page = 0)
  ∧ (get_connections (self w) title = [] →
     stdout (recommend_articles title top_n w).2
     = stdout w ++ [NoRecommendations title]).
Proof.
  intros Hwf Hin. unfold Dict.contains in Hin.
  destruct (Dict.get title (adj_list (self w))) as [links|] eqn:Hget; [|done].
  rewrite recommend_articles_run, Hget. simpl.
  rewrite similarities_loop_candidates. simpl.
  set (sims := omap (candidate title (list_to_set links)) (adj_list (self w))).
  assert (sims = [] ↔
          ∀ page, page ∈ Dict.keys (adj_list (self w)) → page ≠ title →
                  shared_count (adj_list (self w)) title page = 0) as Hnil.
  { split.
    - intros Hs page Hp Hne.
      assert (0 ≤ shared_count (adj_list (self w)) title page)
        by (unfold shared_count; lia).
      destruct (decide (shared_count (adj_list (self w)) title page = 0))
        as [|Hpos]; [done |].
      assert ((page, shared_count (adj_list (self w)) title page) ∈ sims) as Hc.
      { apply (elem_of_candidates _ _ _ _ _ Hwf Hget). split_and!; [done.. | lia]. }
      rewrite Hs in Hc. by apply elem_of_nil in Hc.
    - intros Hall. destruct sims as [|[page shared] sims'] eqn:Hs; [done |].
      assert ((page, shared) ∈ sims) as Hc by (rewrite Hs; by left).
      apply (elem_of_candidates _ _ _ _ _ Hwf Hget) in Hc as (Hp & Hne & -> & Hpos).
      rewrite (Hall page Hp Hne) in Hpos. lia. }
  clearbody sims. split.
  - rewrite <- Hnil. destruct sims; (split; [|done]); [done |].
    intros H. by apply app_inv_head in H.
  - intros Hlinks. assert (sims = []) as ->; [|done]. apply Hnil.
    intros page _ _.
    unfold shared_count. unfold get_connections in Hlinks. rewrite Hlinks.
    assert ((list_to_set [] : gset string) ∩ list_to_set
              (Dict.get_default page [] (adj_list (self w))) = ∅) as ->
      by set_solver.
    by rewrite size_empty.
Qed.

Lemma size_list_to_set_length (l : list string) :
  (size (list_to_set l : gset string) ≤ length l)%nat.
Proof.
  induction l as [|a l IH]; [by rewrite list_to_set_nil, size_empty |].
  rewrite list_to_set_cons, size_union_alt, size_singleton. simpl.
  assert (size (list_to_set l ∖ {[a]} : gset string)
          ≤ size (list_to_set l : gset string))%nat.
  { apply subseteq_size. set_solver. }
  lia.
Qed.

Lemma shared_size_le (l1 l2 : list string) :
  (size ((list_to_set l1 : gset string) ∩ list_to_set l2) ≤ length l1)%nat
  ∧ (size ((list_to_set l1 : gset string) ∩ list_to_set l2) ≤ length l2)%nat.
Proof.
  pose proof (size_list_to_set_length l1). pose proof (size_list_to_set_length l2).
  assert (size ((list_to_set l1 : gset string) ∩ list_to_set l2)
          ≤ size (list_to_set l1 : gset string))%nat
    by (apply subseteq_size; set_solver).
  assert (size ((list_to_set l1 : gset string) ∩ list_to_set l2)
          ≤ size (list_to_set l2 : gset string))%nat
    by (apply subseteq_size; set_solver).
  lia.
Qed.

Lemma elem_of_slice_to {A} (n : Z) (l : list A) x :
  x ∈ Py.slice_to n l → x ∈ l.
Proof.
  unfold Py.slice_to. destruct (0 <=? n); apply subseteq_take.
Qed.

(** A reported score is at least 1 and at most the out-degree of either
    page, whatever [top_n] is; the page itself is never among its
    recommendations, and every recommended page has an entry. *)
Theorem recommended_scores_bounded (title page : string) (shared top_n : Z)
    (w : world) :
  Dict.wf (adj_list (self w)) →
  (page, shared) ∈ recommended title top_n w →
  1 ≤ shared
  ∧ shared ≤ get_out_degree (self w) title
  ∧ shared ≤ get_out_degree (self w) page
  ∧ page ≠ title
  ∧ Dict.contains page (adj_list (self w)) = true.
Proof.
  intros Hwf Hin.
  destruct (Dict.get title (adj_list (self w))) as [links|] eqn:Hget; last first.
  { rewrite recommended_absent in Hin by done. by apply elem_of_nil in Hin. }
  rewrite (recommended_eq _ _ _ _ Hget) in Hin.
  apply elem_of_slice_to in Hin. rewrite sort_reverse_perm in Hin.
  apply (elem_of_candidates _ _ _ _ _ Hwf Hget) in Hin as (Hp & Hne & -> & Hpos).
  unfold shared_count, get_out_degree, get_connections in *.
  destruct (shared_size_le (Dict.get_default title [] (adj_list (self w)))
              (Dict.get_default page [] (adj_list (self w)))) as [H1 H2].
  split_and!; [lia | lia | lia | done | by apply dict_contains_keys].
Qed.

(** *** Ties *)

Section sort_reverse_stable.
Context {A : Type} (key : A → Z).

Lemma insert_reverse_filter x l c :
  filter (λ r, key r = c) (Py.insert_reverse key x l)
  = filter (λ r, key r = c) (x :: l).
Proof.
  induction l as [|y l IH]; simpl; [done |].
  destruct (key y <=? key x) eqn:Hle; [done |].
  apply Z.leb_gt in Hle.
  rewrite (filter_cons _ y), IH, !(filter_cons _ x), (filter_cons _ y).
  repeat case_decide; (done || lia).
Qed.

(** The sort keeps the items of equal key in their order. *)
Lemma sort_reverse_stable l c :
  filter (λ r, key r = c) (Py.sort_reverse key l) = filter (λ r, key r = c) l.
Proof.
  induction l as [|x l IH]; simpl; [done |].
  by rewrite insert_reverse_filter, !filter_cons, IH.
Qed.
End sort_reverse_stable.

Lemma candidates_filter (adj items : dict (list string)) title
    (page_links : gset string) c :
  0 < c →
  (∀ k l2, (k, l2) ∈ items →
     Z.of_nat (size (page_links ∩ list_to_set l2)) = shared_count adj title k) →
  (filter (λ r : string * Z, r.2 = c) (omap (candidate title page_links) items)).*1
  = filter (λ page, page ≠ title ∧ shared_count adj title page = c) items.*1.
Proof.
  intros Hc. induction items as [|[k l2] items IH]; intros Hcount; [done |].
  assert ((filter (λ r : string * Z, r.2 = c)
             (omap (candidate title page_links) items)).*1
          = filter (λ page, page ≠ title ∧ shared_count adj title page = c)
              items.*1) as IH'.
  { apply IH. intros k' l' Hin. apply Hcount. by right. }
  specialize (Hcount k l2 (list_elem_of_here _ _)).
  csimpl. rewrite (filter_cons _ k), <- IH'. unfold candidate at 1. simpl.
  destruct (decide (k = title)) as [->|Hne].
  { rewrite decide_False; [done | by intros [? _]]. }
  rewrite Hcount.
  destruct (0 <? shared_count adj title k) eqn:Hpos.
  - rewrite filter_cons. simpl.
    destruct (decide (shared_count adj title k = c)) as [Heq|Hneq].
    + by rewrite decide_True.
    + rewrite decide_False; [done | by intros [_ ?]].
  - apply Z.ltb_ge in Hpos. rewrite decide_False; [done |]. intros [_ ?]. lia.
Qed.

(** Pages with the same score are recommended in the order of the mapping,
    that is in the order in which the edge list first named them: when
    everything that qualifies is reported, the recommended pages of score
    [c] are the pages of that shared count, as the mapping lists them. *)
Theorem recommended_ties_keep_order (title : string) (top_n c : Z) (w : world) :
  Dict.wf (adj_list (self w)) →
  Z.of_nat (length (adj_list (self w))) ≤ top_n →
  Dict.contains title (adj_list (self w)) = true →
  0 < c →
  (filter (λ r : string * Z, r.2 = c) (recommended title top_n w)).*1
  = filter (λ page, page ≠ title
                    ∧ shared_count (adj_list (self w)) title page = c)
      (Dict.keys (adj_list (self w))).
Proof.
  intros Hwf Hn Hin Hc. unfold Dict.contains in Hin.
  destruct (Dict.get title (adj_list (self w))) as [links|] eqn:Hget; [|done].
  rewrite (recommended_eq _ _ _ _ Hget), slice_to_nonneg by lia.
  rewrite take_ge; last first.
  { rewrite (Permutation_length (sort_reverse_perm _ _)).
    pose proof (candidates_length title (list_to_set links) (adj_list (self w))).
    lia. }
  rewrite (sort_reverse_stable snd).
  apply candidates_filter; [done |]. intros k l2 Hk. unfold shared_count.
  rewrite (dict_get_default_item _ _ _ Hwf Hk).
  unfold Dict.get_default. by rewrite Hget.
Qed.

(** ** Categories *)

Lemma pages_loop_last pages (categories : gset string) :
  pages_loop pages categories
  = match last_categories pages with
    | Some titles => list_to_set titles
    | None => categories
    end.
Proof.
  unfold last_categories. revert categories.
  induction pages as [|[page_id [titles|]] pages IH]; intros categories; csimpl.
  - done.
  - rewrite IH, last_cons. by destruct (last (omap snd pages)).
  - by rewrite IH.
Qed.

(** The categories of a title are those of the last page of the answer that
    lists categories, not the union over the pages; and an answer without
    pages gives an empty list, not a set. *)
Theorem get_page_categories_last_page (api : string → api_data) (title : string) :
  get_page_categories api title
  = match api title with
    | NoQuery | NoPages => EmptyList
    | Pages pages =>
        CategorySet (match last_categories pages with
                     | Some titles => list_to_set titles
                     | None => ∅
                     end)
    end.
Proof.
  unfold get_page_categories. destruct (api title); [done | done |].
  by rewrite pages_loop_last.
Qed.

(** [find_common_categories] raises [AttributeError] exactly when the answer
    for the first title has no pages, whatever the answer for the second
    title is; an answer without pages for the second title alone gives "no
    common categories". *)
Theorem find_common_categories_attribute_error (api : string → api_data)
    (title1 title2 : string) :
  (find_common_categories api title1 title2 = AttributeError
   ↔ api title1 = NoQuery ∨ api title1 = NoPages)
  ∧ (∀ pages, api title1 = Pages pages →
       api title2 = NoQuery ∨ api title2 = NoPages →
       find_common_categories api title1 title2
       = NoCommonCategories title1 title2).
Proof.
  unfold find_common_categories, get_page_categories. split.
  - destruct (api title1) as [| |pages1]; simpl.
    + split; [by left | done].
    + split; [by right | done].
    + split; [|by intros [?|?]]. by case_decide.
  - intros pages -> [-> | ->]; simpl;
      (rewrite decide_True; [done | set_solver]).
Qed.

(** When both answers have pages, [find_common_categories] reports the
    intersection of the two category sets with its size, or that there is
    none when the intersection is empty; exchanging the titles gives the
    same categories. *)
Theorem find_common_categories_intersection (api : string → api_data)
    (title1 title2 : string) (pages1 pages2 : list (string * option (list string))) :
  api title1 = Pages pages1 →
  api title2 = Pages pages2 →
  let categories pages : gset string :=
    list_to_set (default [] (last_categories pages)) in
  let common := categories pages1 ∩ categories pages2 in
  find_common_categories api title1 title2
  = (if decide (common = ∅) then NoCommonCategories title1 title2
     else CommonCategories (Z.of_nat (size common)) title1 title2 common)
  ∧ find_common_categories api title2 title1
    = (if decide (common = ∅) then NoCommonCategories title2 title1
       else CommonCategories (Z.of_nat (size common)) title2 title1 common).
Proof.
  intros H1 H2 categories common.
  assert (∀ pages, pages_loop pages ∅ = categories pages) as Hcat.
  { intros pages. rewrite pages_loop_last. unfold categories.
    by destruct (last_categories pages). }
  unfold find_common_categories, get_page_categories. rewrite H1, H2, !Hcat.
  split; [done |].
  assert (categories pages2 ∩ categories pages1 = common) as -> by set_solver.
  done.
Qed.

(** ** The further properties at concrete inputs *)

Lemma build_then_init_witness :
  Dict.wf (adj_list (self new_world))
  ∧ fixture_file ≠ []
  ∧ adj_list (self (init (cache_file (self new_world))
                      (build_graph_from_file fixture_file new_world).2).2)
    = adj_list (self (build_graph_from_file fixture_file new_world).2).
Proof.
  split_and!; [constructor | discriminate |].
  apply (build_then_init fixture_file new_world); [constructor | discriminate].
Defined.

Lemma main_setup_prefers_cache_witness :
  files cached_world !! "wikigraph_cache.json" = Some [("A", ["B"]); ("B", [])]
  ∧ adj_list (self (main_setup [] cached_world).2) = [("A", ["B"]); ("B", [])].
Proof.
  split; [reflexivity |].
  rewrite (main_setup_prefers_cache [] cached_world [("A", ["B"]); ("B", [])]);
    [reflexivity | reflexivity | discriminate].
Defined.

Lemma main_setup_reads_edge_list_witness :
  files new_world !! "wikigraph_cache.json" = None
  ∧ ∀ title,
      get_connections (self (main_setup fixture_file new_world).2) title
      = targets title (tail fixture_file).
Proof.
  split; [reflexivity |].
  apply (main_setup_reads_edge_list fixture_file new_world). left. reflexivity.
Defined.

Lemma main_setup_twice_witness :
  (main_setup fixture_file new_world).1 = Ok ()
  ∧ adj_list (self (main_setup fixture_file new_world).2) ≠ []
  ∧ adj_list (self (main_setup [] (main_setup fixture_file new_world).2).2)
    = adj_list (self (main_setup fixture_file new_world).2).
Proof.
  split_and!; [reflexivity | discriminate |].
  apply (main_setup_twice fixture_file [] new_world); [reflexivity | discriminate].
Defined.

Lemma build_graph_from_file_keeps_closed_witness :
  closed (adj_list (self new_world)) = true
  ∧ ∀ a b,
      b ∈ get_connections (self (build_graph_from_file fixture_file new_world).2) a →
      Dict.contains b
        (adj_list (self (build_graph_from_file fixture_file new_world).2)) = true.
Proof.
  split; [reflexivity |].
  apply (build_graph_from_file_keeps_closed fixture_file new_world). reflexivity.
Defined.

Lemma in_degree_counts_pages_witness :
  Dict.wf (adj_list (self fixture))
  ∧ 0 ≤ get_in_degree (self fixture) "X"
      ≤ Z.of_nat (length (adj_list (self fixture))).
Proof.
  split; [apply fixture_wf |].
  apply (in_degree_counts_pages (self fixture) "X"), fixture_wf.
Defined.

Lemma degrees_of_loaded_graph_witness :
  adj_list (self new_world) = []
  ∧ get_out_degree (self (build_graph_from_file fixture_file new_world).2) "A"
    = Z.of_nat (length (targets "A" (tail fixture_file))).
Proof.
  split; [reflexivity |].
  apply (degrees_of_loaded_graph _ (tail fixture_file) "A" new_world). reflexivity.
Defined.

Lemma print_shortest_path_same_page_witness :
  Dict.contains "A" (adj_list (self fixture)) = true
  ∧ (print_shortest_path "A" "A" fixture).1 = Raise TypeError.
Proof.
  split; [reflexivity |].
  rewrite (print_shortest_path_same_page "A" fixture); reflexivity.
Defined.

Lemma print_shortest_path_reports_witness :
  "A" ≠ "D"
  ∧ ∃ lines,
      print_shortest_path "A" "D" detour
      = (Ok (), {| self := self (find_shortest_path "A" "D" detour).2;
                   files := files detour;
                   stdout := stdout detour ++ lines |})
      ∧ ((find_shortest_path "A" "D" detour).1 = Ok Py.None_
         ∧ lines = [NoPathFound]
         ∨ ∃ p, (find_shortest_path "A" "D" detour).1 = Ok (Py.List (Py.Str <$> p))
                ∧ lines = [ShortestPathSteps (steps p); PathLine p]
                ∧ 1 ≤ steps p).
Proof.
  split; [discriminate |].
  apply (print_shortest_path_reports "A" "D" detour). right. discriminate.
Defined.

Lemma find_shortest_path_direct_link_witness :
  "C" ∈ get_connections (self detour) "A"
  ∧ Dict.contains "C" (adj_list (self detour)) = true
  ∧ "A" ≠ "C"
  ∧ (find_shortest_path "A" "C" detour).1 = Ok (Py.List [Py.Str "A"; Py.Str "C"]).
Proof.
  assert ("C" ∈ get_connections (self detour) "A") as Hlink.
  { apply (bool_decide_unpack _). vm_compute. exact I. }
  split_and!; [exact Hlink | reflexivity | discriminate |].
  apply find_shortest_path_direct_link; [exact Hlink | reflexivity | discriminate].
Defined.

Lemma find_shortest_path_simple_witness :
  (find_shortest_path "A" "D" detour).1
  = Ok (Py.List (Py.Str <$> ["A"; "C"; "D"]))
  ∧ NoDup ["A"; "C"; "D"]
  ∧ steps ["A"; "C"; "D"] < Z.of_nat (length (adj_list (self detour))).
Proof.
  split; [reflexivity |].
  destruct (find_shortest_path_simple "A" "D" ["A"; "C"; "D"] detour)
    as (Hnd & _ & Hlt); [reflexivity |].
  exact (conj Hnd Hlt).
Defined.

Lemma find_shortest_path_after_loading_witness :
  (find_shortest_path "A" "D" detour).1
  = Ok (Py.List (Py.Str <$> ["A"; "C"; "D"]))
  ∧ ∃ p', (find_shortest_path "A" "D"
             (build_graph_from_file shortcut_file detour).2).1
          = Ok (Py.List (Py.Str <$> p'))
          ∧ steps p' ≤ steps ["A"; "C"; "D"].
Proof.
  split; [reflexivity |].
  apply (find_shortest_path_after_loading shortcut_file "A" "D" ["A"; "C"; "D"]
           detour).
  reflexivity.
Defined.

Lemma recommendations_mutual_witness :
  Dict.wf (adj_list (self fixture))
  ∧ Z.of_nat (length (adj_list (self fixture))) ≤ 8
  ∧ (("B", 2) ∈ recommended "A" 8 fixture ↔ ("A", 2) ∈ recommended "B" 8 fixture).
Proof.
  split_and!; [apply fixture_wf | vm_compute; discriminate |].
  apply recommendations_mutual; [apply fixture_wf | vm_compute; discriminate].
Defined.

Lemma recommended_negative_top_n_witness :
  -1 < 0
  ∧ recommended "A" (-1) fixture
    = take (length (recommended "A" (Z.of_nat (length (adj_list (self fixture))))
                      fixture)
            - Z.to_nat (- -1))
        (recommended "A" (Z.of_nat (length (adj_list (self fixture)))) fixture).
Proof.
  split; [lia |]. apply (recommended_negative_top_n "A" (-1) fixture). lia.
Defined.

Lemma recommend_articles_no_recommendations_witness :
  Dict.wf (adj_list (self fixture))
  ∧ Dict.contains "X" (adj_list (self fixture)) = true
  ∧ get_connections (self fixture) "X" = []
  ∧ stdout (recommend_articles "X" 3 fixture).2
    = stdout fixture ++ [NoRecommendations "X"].
Proof.
  split_and!; [apply fixture_wf | reflexivity | reflexivity |].
  apply (recommend_articles_no_recommendations "X" 3 fixture);
    [apply fixture_wf | reflexivity | reflexivity].
Defined.

Lemma recommended_scores_bounded_witness :
  Dict.wf (adj_list (self fixture))
  ∧ ("B", 2) ∈ recommended "A" 2 fixture
  ∧ 1 ≤ 2
  ∧ 2 ≤ get_out_degree (self fixture) "A"
  ∧ 2 ≤ get_out_degree (self fixture) "B".
Proof.
  assert (("B", 2) ∈ recommended "A" 2 fixture) as Hin.
  { apply (bool_decide_unpack _). vm_compute. exact I. }
  destruct (recommended_scores_bounded "A" "B" 2 2 fixture fixture_wf Hin)
    as (H1 & H2 & H3 & _).
  exact (conj fixture_wf (conj Hin (conj H1 (conj H2 H3)))).
Defined.

Lemma recommended_ties_keep_order_witness :
  Dict.wf (adj_list (self fixture))
  ∧ Z.of_nat (length (adj_list (self fixture))) ≤ 8
  ∧ Dict.contains "B" (adj_list (self fixture)) = true
  ∧ 0 < 1
  ∧ (filter (λ r : string * Z, r.2 = 1) (recommended "B" 8 fixture)).*1
    = filter (λ page, page ≠ "B"
                      ∧ shared_count (adj_list (self fixture)) "B" page = 1)
        (Dict.keys (adj_list (self fixture))).
Proof.
  split_and!; [apply fixture_wf | vm_compute; discriminate | reflexivity | lia |].
  apply recommended_ties_keep_order;
    [apply fixture_wf | vm_compute; discriminate | reflexivity | lia].
Defined.

Lemma find_common_categories_intersection_witness :
  sample_api "Rocq"
  = Pages [("1", Some ["Category:Proof assistants"; "Category:Free software"])]
  ∧ sample_api "Lean" = Pages [("2", Some ["Category:Proof assistants"])]
  ∧ find_common_categories sample_api "Rocq" "Lean"
    = CommonCategories 1 "Rocq" "Lean" {["Category:Proof assistants"]}.
Proof.
  split_and!; [reflexivity | reflexivity |].
  destruct (find_common_categories_intersection sample_api "Rocq" "Lean"
              [("1", Some ["Category:Proof assistants"; "Category:Free software"])]
              [("2", Some ["Category:Proof assistants"])] eq_refl eq_refl)
    as [H _].
  rewrite H. vm_compute. reflexivity.
Defined.
